(** * Magician-Platform: the branch structure auditor ([config/settings.py])

    A shallow embedding of the auditor script and the properties its
    specification states about it.

    Modelling conventions.
    - A Python [str] is a [string]; each character stands for the code point of
      the same number (U+0000 to U+00FF).  Code points above U+00FF are outside
      the model.
    - A Python [dict] whose iteration order matters (the manifest, the report)
      is an association list in insertion order.
    - The working tree is a finite map from a path, as the program spells it, to
      a node (directory or regular file with its content).  Symbolic links,
      permissions and alternative spellings of one location are outside the
      model.
    - The version-control tool is reached only through the shell; the shell is a
      parameter of the development, and its repository state is abstract.  The
      bytes a command writes are not modelled: the shell tells whether they
      decode, and gives the text when they do.
    - A Python exception ends the computation with an error and keeps every
      effect that happened before it was raised.
    - Lines 74 to 83 of [settings.py] are the tail of a JSON document, not
      Python; the script is lines 1 to 72. *)

From Stdlib Require Import Ascii.
From stdpp Require Import base option list strings gmap fin_maps.

(** ** Strings *)

Module Str.

(** [str.isspace] on one character, for code points below 256. *)
Definition is_space (c : ascii) : bool :=
  match c with
  | "009" | "010" | "011" | "012" | "013"
  | "028" | "029" | "030" | "031" | " "
  | "133" | "160" => true
  | _ => false
  end%char.

(** [s.lstrip()] *)
Fixpoint lstrip (s : string) : string :=
  match s with
  | String c s' => if is_space c then lstrip s' else s
  | EmptyString => EmptyString
  end.

(** [s.rstrip()] *)
Fixpoint rstrip (s : string) : string :=
  match s with
  | String c s' =>
      match rstrip s' with
      | EmptyString => if is_space c then EmptyString else String c EmptyString
      | r => String c r
      end
  | EmptyString => EmptyString
  end.

(** [s.strip()] *)
Definition strip (s : string) : string := rstrip (lstrip s).

(** [s.replace(old, new)] for a pattern [old] of one character. *)
Fixpoint replace (old : ascii) (new : string) (s : string) : string :=
  match s with
  | String c s' =>
      if decide (c = old) then new +:+ replace old new s'
      else String c (replace old new s')
  | EmptyString => EmptyString
  end.

(** [s.split(sep)] for a separator of one character: never the empty list. *)
Fixpoint split (sep : ascii) (s : string) : list string :=
  match s with
  | String c s' =>
      if decide (c = sep) then EmptyString :: split sep s'
      else match split sep s' with
           | w :: ws => String c w :: ws
           | [] => [String c EmptyString]
           end
  | EmptyString => [EmptyString]
  end.

(** [needle in s] *)
Fixpoint contains (needle s : string) : bool :=
  String.prefix needle s ||
  match s with
  | String _ s' => contains needle s'
  | EmptyString => false
  end.

(** [s.startswith(p)] and [s.endswith(p)] for a pattern [p] of one
    character, and the truth value of a string. *)
Definition startswith (c : ascii) (s : string) : bool :=
  match s with
  | String d _ => bool_decide (d = c)
  | EmptyString => false
  end.

Fixpoint endswith (c : ascii) (s : string) : bool :=
  match s with
  | String d EmptyString => bool_decide (d = c)
  | String _ s' => endswith c s'
  | EmptyString => false
  end.

Definition truthy (s : string) : bool :=
  match s with
  | EmptyString => false
  | String _ _ => true
  end.

(** The characters of a string. *)
Fixpoint chars (s : string) : list ascii :=
  match s with
  | String c s' => c :: chars s'
  | EmptyString => []
  end.

End Str.

(** ** The manifest (lines 5 to 27) *)

(** A folder path with the names of the files it must hold, in insertion
    order. *)
Definition manifest := list (string * list string).

(** The literal of lines 5 to 16. *)
Definition BASE_STRUCTURE : manifest :=
  [ ("orchestration", ["base_magician.py"; "router.py"]);
    ("resources/models", []);
    ("resources/services", []);
    ("lifecycle", []);
    ("api", []);
    ("config", ["settings.py"]);
    ("tests", []) ].

Definition MAGICIANS : list string := ["job"; "business"; "developer"].

(** [d[key].append(v)]: a [KeyError] ([None]) when [key] is not in [d]. *)
Fixpoint dict_append (key v : string) (d : manifest) : option manifest :=
  match d with
  | [] => None
  | (k, vs) :: d' =>
      if decide (k = key) then Some ((k, vs ++ [v]) :: d')
      else cons (k, vs) <$> dict_append key v d'
  end.

(** The body of the loop of lines 21 to 27 for one variant [m]. *)
Definition add_magician (m : string) (d : manifest) : option manifest :=
  d ← dict_append "orchestration" (m +:+ "_magician.py") d;
  d ← dict_append "lifecycle" ("vacuum_" +:+ m +:+ "_data.py") d;
  d ← dict_append "lifecycle" ("retrain_" +:+ m +:+ ".py") d;
  d ← dict_append "api" ("routes_" +:+ m +:+ ".py") d;
  d ← dict_append "tests" ("test_" +:+ m +:+ "_api.py") d;
  dict_append "tests" ("test_" +:+ m +:+ "_magician.py") d.

(** The loop of lines 21 to 27 over a list of variants. *)
Fixpoint add_magicians (ms : list string) (d : manifest) : option manifest :=
  match ms with
  | [] => Some d
  | m :: ms' => d' ← add_magician m d; add_magicians ms' d'
  end.

(** Manifest construction: the literal, then the loop. *)
Definition build_manifest (variants : list string) : option manifest :=
  add_magicians variants BASE_STRUCTURE.

(** The value the global [REQUIRED_STRUCTURE] holds once the module body has
    run. *)
Definition required_structure : manifest :=
  default [] (build_manifest MAGICIANS).

(** [d[key]] on a manifest. *)
Fixpoint dict_get (key : string) (d : manifest) : option (list string) :=
  match d with
  | [] => None
  | (k, vs) :: d' => if decide (k = key) then Some vs else dict_get key d'
  end.

Definition keys (d : manifest) : list string := d.*1.


(** ** Paths and the working tree *)

Definition LF : ascii := "010"%char.
Definition DQUOTE : ascii := "034"%char.

(** [os.path.join(a, b)] of [posixpath]. *)
Definition os_path_join (a b : string) : string :=
  if Str.startswith "/" b then b
  else if negb (Str.truthy a) || Str.endswith "/" a then a +:+ b
  else a +:+ "/" +:+ b.

(** The paths named by the successive components [cs] below the prefix
    [pre], outermost first. *)
Fixpoint paths_from (pre : string) (cs : list string) : list string :=
  match cs with
  | [] => []
  | c :: cs' => (pre +:+ c) :: paths_from (pre +:+ c +:+ "/") cs'
  end.

(** The directories strictly above a path, outermost first:
    [above "a/b/c" = ["a"; "a/b"]]. *)
Definition above (p : string) : list string :=
  paths_from EmptyString (removelast (Str.split "/" p)).

(** The directory a path lies in; [None] for a path of one component, which
    lies in the current directory. *)
Definition parent (p : string) : option string :=
  last (above p).

(** A component of a path in normal form. *)
Definition normal_component (c : string) : bool :=
  Str.truthy c && negb (bool_decide (c = ".")) && negb (bool_decide (c = "..")).

(** A relative path in normal form: components that are neither empty nor
    [.] nor [..], with one [/] between two of them. *)
Definition normal_path (p : string) : bool :=
  forallb normal_component (Str.split "/" p).

Inductive node : Type :=
  | Dir
  | File (content : string).

Global Instance node_eq_dec : EqDecision node.
Proof. solve_decision. Defined.

(** The working tree, keyed by path. *)
Abbreviation fs := (gmap string node).

(** [os.path.exists(p)] *)
Definition path_exists (t : fs) (p : string) : bool :=
  match t !! p with
  | Some _ => true
  | None => false
  end.

(** [os.mkdir(p)] where the directory above [p] is known to be there: [None]
    when [p] is a regular file, no change when [p] is a directory already. *)
Definition mkdir_exist_ok (p : string) (t : fs) : option fs :=
  match t !! p with
  | None => Some (<[p := Dir]> t)
  | Some Dir => Some t
  | Some (File _) => None
  end.

(** [os.makedirs(name, exist_ok=True)]: the directories above [name],
    outermost first, then [name] itself; [None] is the [OSError] raised when
    one of them is a regular file, or when [name] is the empty string
    ([FileNotFoundError]). *)
Definition makedirs (name : string) (t : fs) : option fs :=
  if Str.truthy name then
    foldl (λ ot p, ot ≫= mkdir_exist_ok p) (Some t) (above name)
      ≫= mkdir_exist_ok name
  else None.

(** [with open(path, "w") as fp: fp.write(content)]: [None] is the
    [OSError] raised when [path] is a directory or does not lie in one. *)
Definition write_file (path content : string) (t : fs) : option fs :=
  match t !! path with
  | Some Dir => None
  | _ =>
      match parent path with
      | None => Some (<[path := File content]> t)
      | Some d =>
          match t !! d with
          | Some Dir => Some (<[path := File content]> t)
          | _ => None
          end
      end
  end.

(** ** The state of a run *)

(** What [subprocess.check_output(cmd, shell=True).decode()] of line 32
    comes to. *)
Inductive answer : Type :=
  | Output (text : string)  (* exit status zero: what the command wrote, decoded *)
  | ExitNonZero             (* [check_output] raises [CalledProcessError] *)
  | NotUtf8.                (* exit status zero, and [decode] raises
                               [UnicodeDecodeError]: the bytes are not UTF-8 *)

Global Instance answer_eq_dec : EqDecision answer.
Proof. solve_decision. Defined.

(** The exceptions of the script.  An [OSError] carries the argument of the
    call that raised it. *)
Inductive error : Type :=
  | CalledProcessError (cmd : string)   (* [subprocess.check_output], non-zero exit status *)
  | UnicodeDecodeError                  (* [bytes.decode] *)
  | OSError (path : string).            (* [os.makedirs], [open] *)

Global Instance error_eq_dec : EqDecision error.
Proof. solve_decision. Defined.

(** The report: branch name to missing items, in insertion order. *)
Definition report := list (string * list string).

(** [d[key] = v] on a report: in place when the key is there, at the end
    otherwise. *)
Fixpoint dict_set (key : string) (v : list string) (d : report) : report :=
  match d with
  | [] => [(key, v)]
  | (k, v') :: d' =>
      if decide (k = key) then (k, v) :: d' else (k, v') :: dict_set key v d'
  end.

(** ** [json.dumps(report, indent=2)] *)

Module Json.

Definition hex_digit (n : N) : ascii :=
  match n with
  | 0 => "0" | 1 => "1" | 2 => "2" | 3 => "3" | 4 => "4" | 5 => "5"
  | 6 => "6" | 7 => "7" | 8 => "8" | 9 => "9" | 10 => "a" | 11 => "b"
  | 12 => "c" | 13 => "d" | 14 => "e" | _ => "f"
  end%N%char.

(** One character inside a JSON string, with [ensure_ascii]. *)
Definition escape (c : ascii) : string :=
  match c with
  | "034" => String "\" (String DQUOTE EmptyString)
  | "\" => String "\" (String "\" EmptyString)
  | "008" => String "\" "b"
  | "012" => String "\" "f"
  | "010" => String "\" "n"
  | "013" => String "\" "r"
  | "009" => String "\" "t"
  | _ =>
      let n := N_of_ascii c in
      if (32 <=? n)%N && (n <=? 126)%N then String c EmptyString
      else String "\" ("u00" +:+ String (hex_digit (n / 16))
                                  (String (hex_digit (n mod 16)) EmptyString))
  end%char.

Fixpoint escape_all (s : string) : string :=
  match s with
  | String c s' => escape c +:+ escape_all s'
  | EmptyString => EmptyString
  end.

Definition quote (s : string) : string :=
  String DQUOTE (escape_all s +:+ String DQUOTE EmptyString).

(** The items of a container, one a line, at indentation [ind]. *)
Fixpoint lines (ind : string) (items : list string) : string :=
  match items with
  | [] => EmptyString
  | [x] => String LF (ind +:+ x)
  | x :: xs => String LF (ind +:+ x +:+ ",") +:+ lines ind xs
  end.

Definition array (ind : string) (xs : list string) : string :=
  match xs with
  | [] => "[]"
  | _ => "[" +:+ lines (ind +:+ "  ") (quote <$> xs) +:+ String LF (ind +:+ "]")
  end.

Definition dumps (r : report) : string :=
  match r with
  | [] => "{}"
  | _ =>
      "{" +:+ lines "  " ((λ kv, quote kv.1 +:+ ": " +:+ array "  " kv.2) <$> r)
          +:+ String LF "}"
  end.

End Json.

(** ** The script *)

Section Auditor.

(** The state of the version-control repository: its refs, its index and
    whatever else the tool keeps. *)
Context {repo : Type}.

(** The shell: [subprocess.check_output(cmd, shell=True).decode()] from a
    repository state and a working tree.  It answers with the text the
    command wrote, or tells that the exit status is not zero, or that what
    the command wrote does not decode, and in every case it gives the state
    the command left. *)
Variable sh : string → repo → fs → answer * repo * fs.

(** The module globals the functions read, and the world outside. *)
Record world : Type := World {
  REQUIRED_STRUCTURE : manifest;
  AUTO_FIX : bool;
  vcs : repo;
  tree : fs;
  stdout : list string   (* one entry for each [print], oldest first *)
}.

Definition set_outside (r : repo) (t : fs) (w : world) : world :=
  World (REQUIRED_STRUCTURE w) (AUTO_FIX w) r t (stdout w).

Definition set_tree (t : fs) (w : world) : world :=
  set_outside (vcs w) t w.

(** Computations: a state that survives an exception, and a result. *)
Definition M (A : Type) : Type := world → world * (error + A).

Definition ret {A} (a : A) : M A := λ w, (w, inr a).

Definition bind {A B} (m : M A) (k : A → M B) : M B :=
  λ w, match m w with
       | (w', inr a) => k a w'
       | (w', inl e) => (w', inl e)
       end.

Notation "x <- m ;; k" := (bind m (λ x, k))
  (at level 100, m at next level, right associativity).
Notation "m ;; k" := (bind m (λ _, k))
  (at level 100, right associativity).

Definition gets {A} (f : world → A) : M A := λ w, (w, inr (f w)).

Definition print (s : string) : M unit :=
  λ w, (World (REQUIRED_STRUCTURE w) (AUTO_FIX w) (vcs w) (tree w)
              (stdout w ++ [s]), inr tt).

(** Lines 31 and 32. *)
Definition run (cmd : string) : M string :=
  λ w, match sh cmd (vcs w) (tree w) with
       | (Output out, r, t) => (set_outside r t w, inr (Str.strip out))
       | (ExitNonZero, r, t) => (set_outside r t w, inl (CalledProcessError cmd))
       | (NotUtf8, r, t) => (set_outside r t w, inl UnicodeDecodeError)
       end.

Definition os_path_exists (p : string) : M bool :=
  gets (λ w, path_exists (tree w) p).

Definition os_makedirs (name : string) : M unit :=
  λ w, match makedirs name (tree w) with
       | Some t => (set_tree t w, inr tt)
       | None => (w, inl (OSError name))
       end.

Definition open_write (path content : string) : M unit :=
  λ w, match write_file path content (tree w) with
       | Some t => (set_tree t w, inr tt)
       | None => (w, inl (OSError path))
       end.

Definition when (b : bool) (m : M unit) : M unit :=
  if b then m else ret tt.

(** The text line 53 writes for the file name [f]. *)
Definition placeholder (f : string) : string :=
  "# Auto-generated placeholder for " +:+ f +:+ String LF EmptyString.

Definition missing_folder (folder : string) : string :=
  "Missing folder: " +:+ folder.

Definition missing_file (path : string) : string :=
  "Missing file: " +:+ path.

(** Lines 47 to 53: the files of one folder that is there. *)
Fixpoint check_files (folder : string) (files : list string)
    (missing : list string) : M (list string) :=
  match files with
  | [] => ret missing
  | f :: files' =>
      let path := os_path_join folder f in
      there <- os_path_exists path ;;
      if there then check_files folder files' missing
      else
        let missing := missing ++ [missing_file path] in
        fix_it <- gets AUTO_FIX ;;
        when fix_it (open_write path (placeholder f)) ;;
        check_files folder files' missing
  end.

(** Lines 40 to 53: the loop over the items of the manifest. *)
Fixpoint check_folders (items : manifest) (missing : list string)
    : M (list string) :=
  match items with
  | [] => ret missing
  | (folder, files) :: items' =>
      there <- os_path_exists folder ;;
      if there then
        missing <- check_files folder files missing ;;
        check_folders items' missing
      else
        let missing := missing ++ [missing_folder folder] in
        fix_it <- gets AUTO_FIX ;;
        when fix_it (os_makedirs folder) ;;
        check_folders items' missing
  end.

Definition banner (branch : string) : string :=
  String LF ("=== Checking branch: " +:+ branch +:+ " ===").

Definition checkout (branch : string) : string := "git checkout " +:+ branch.

(** Lines 34 to 55. *)
Definition check_branch (branch : string) : M (list string) :=
  print (banner branch) ;;
  run (checkout branch) ;;
  items <- gets REQUIRED_STRUCTURE ;;
  check_folders items [].

(** Lines 35 and 36 alone: the banner and the checkout.  The answer of the
    shell, and the world the loop of line 40 starts from (or the world the
    exception leaves). *)
Definition checked_out (branch : string) (w : world) : answer * world :=
  let '(o, r, t) := sh (checkout branch) (vcs w) (tree w) in
  (o, World (REQUIRED_STRUCTURE w) (AUTO_FIX w) r t (stdout w ++ [banner branch])).

(** Line 59: the names read off the lines of the listing. *)
Definition branch_names (lines : list string) : list string :=
  (λ b, Str.strip (Str.replace "*" EmptyString b))
    <$> filter (λ b, Str.contains "remotes" b = false) lines.

(** Lines 63 to 66. *)
Fixpoint audit_branches (branches : list string) (rep : report) : M report :=
  match branches with
  | [] => ret rep
  | branch :: branches' =>
      if Str.truthy branch then
        missing <- check_branch branch ;;
        audit_branches branches' (dict_set branch missing rep)
      else audit_branches branches' rep
  end.

Definition final_banner : string :=
  String LF (String LF "=== FINAL REPORT ===").

(** Lines 57 to 69. *)
Definition main : M unit :=
  out <- run "git branch -a" ;;
  let branches := branch_names (Str.split LF out) in
  rep <- audit_branches branches [] ;;
  print final_banner ;;
  print (Json.dumps rep).

(** What the branch enumerator makes of the raw text of the listing: the
    names that reach the auditor, in order. *)
Definition enumerate_branches (raw : string) : list string :=
  filter (λ b, Str.truthy b = true)
         (branch_names (Str.split LF (Str.strip raw))).

End Auditor.

Arguments world : clear implicits.
Arguments World {repo}.
Arguments M : clear implicits.

Global Instance world_eq_dec {repo} `{EqDecision repo} : EqDecision (world repo).
Proof. solve_decision. Defined.

(** The module body (lines 5 to 29) followed by the call of [main] (lines 71
    and 72): the manifest is built, [AUTO_FIX] is set to [False], nothing has
    been printed.  [None] is the [KeyError] of an append to a folder the
    literal does not have. *)
Definition module_globals {repo} (r : repo) (t : fs) : option (world repo) :=
  m ← build_manifest MAGICIANS;
  Some (World m false r t []).

Definition script {repo} (sh : string → repo → fs → answer * repo * fs)
    (r : repo) (t : fs) : option (world repo * (error + unit)) :=
  main sh <$> module_globals r t.

(** ** What an audit pass should find, read off the tree it starts from *)

(** The entries for the files of a folder that is there. *)
Definition files_missing (t : fs) (folder : string) (files : list string)
    : list string :=
  (λ f, missing_file (os_path_join folder f))
    <$> filter (λ f, path_exists t (os_path_join folder f) = false) files.

(** The entries for one item of the manifest. *)
Definition item_missing (t : fs) (item : string * list string) : list string :=
  if path_exists t item.1 then files_missing t item.1 item.2
  else [missing_folder item.1].

(** The entries for the whole manifest, in manifest order. *)
Definition all_missing (t : fs) (m : manifest) : list string :=
  m ≫= item_missing t.

(** Every path an audit pass looks at: each folder, then each of its files. *)
Definition checked_paths (m : manifest) : list string :=
  m ≫= (λ item, item.1 :: (os_path_join item.1 <$> item.2)).

(** The directories strictly above the folders of the manifest. *)
Definition above_folders (m : manifest) : list string :=
  m ≫= (λ item, above item.1).

(** A manifest spelled in normal form: every folder is a relative path in
    normal form and every file name is one component in normal form.  For
    such a manifest one location has one spelling among the paths a pass
    looks at or creates. *)
Definition normal_form (m : manifest) : bool :=
  forallb (λ item, normal_path item.1 &&
                   forallb (λ f, normal_component f &&
                                 negb (Str.contains "/" f)) item.2) m.

(** A manifest whose paths cannot get in each other's way during a pass that
    creates what is missing: it is spelled in normal form, no path is looked
    at twice, and no path looked at lies above a folder. *)
Definition independent (m : manifest) : bool :=
  normal_form m
  && bool_decide (NoDup (checked_paths m))
  && forallb (λ p, bool_decide (p ∉ above_folders m)) (checked_paths m).

(** The tree holds every folder and every file of the manifest. *)
Definition conforms (t : fs) (m : manifest) : Prop :=
  ∀ folder files, (folder, files) ∈ m →
    path_exists t folder = true ∧
    ∀ f, f ∈ files → path_exists t (os_path_join folder f) = true.

(** [conforms], as a test that runs. *)
Definition conformsb (t : fs) (m : manifest) : bool :=
  forallb (λ item, path_exists t item.1 &&
                   forallb (λ f, path_exists t (os_path_join item.1 f)) item.2) m.


(** ** A small version-control tool to run the script against *)

Module ToyGit.

(** Local branches with the tree each one tracks, the remote-tracking
    names, and where [HEAD] is: on a branch, or detached. *)
Record repo : Type := Repo {
  branches : list (string * fs);
  remotes : list string;
  head : option string
}.

Global Instance repo_eq_dec : EqDecision repo.
Proof. solve_decision. Defined.

Fixpoint snapshot (b : string) (bs : list (string * fs)) : option fs :=
  match bs with
  | [] => None
  | (k, t) :: bs' => if decide (k = b) then Some t else snapshot b bs'
  end.

Definition line (r : repo) (b : string) : string :=
  (if decide (head r = Some b) then "* " else "  ")
    +:+ b +:+ String LF EmptyString.

(** Names in byte order, the order the tool lists refs in. *)
Fixpoint place (b : string) (bs : list string) : list string :=
  match bs with
  | [] => [b]
  | c :: bs' => if String.leb b c then b :: bs else c :: place b bs'
  end.

Definition by_name (bs : list string) : list string := foldr place [] bs.

(** The text of [git branch -a]: the line of a detached [HEAD], the local
    branches by name, the remote-tracking names by name. *)
Definition listing (r : repo) : string :=
  match head r with
  | Some _ => EmptyString
  | None => "* (HEAD detached at 1a2b3c4)" +:+ String LF EmptyString
  end
  +:+ foldr String.app EmptyString (line r <$> by_name (branches r).*1)
  +:+ foldr String.app EmptyString
        ((λ b, "  remotes/" +:+ b +:+ String LF EmptyString)
           <$> by_name (remotes r)).

(** The rest of [s] after the prefix [p]. *)
Fixpoint after (p s : string) : option string :=
  match p, s with
  | EmptyString, _ => Some s
  | String c p', String d s' => if decide (c = d) then after p' s' else None
  | String _ _, EmptyString => None
  end.

(** What the branch at [HEAD] tracks. *)
Definition tracked (r : repo) : fs :=
  default ∅ (head r ≫= λ b, snapshot b (branches r)).

(** A node of the tree that the target of a checkout would overwrite. *)
Definition in_the_way (target : fs) (entry : string * node) : bool :=
  match entry.2, target !! entry.1 with
  | File _, Some _ => true
  | _, _ => false
  end.

(** The tree after the checkout of [b]: what [HEAD] tracked goes, what [b]
    tracks comes, what is untracked stays.  [None] when [b] is not a local
    branch, or when an untracked file would be overwritten. *)
Definition switch (b : string) (r : repo) (t : fs) : option fs :=
  target ← snapshot b (branches r);
  let untracked := t ∖ tracked r in
  if existsb (in_the_way target) (map_to_list untracked) then None
  else Some (target ∪ untracked).

(** Two commands: the listing and the checkout of a local branch.
    Everything else exits with a non-zero status. *)
Definition sh (cmd : string) (r : repo) (t : fs) : answer * repo * fs :=
  if decide (cmd = "git branch -a") then (Output (listing r), r, t)
  else
    match after "git checkout " cmd with
    | Some b =>
        match switch b r t with
        | Some t' =>
            (Output EmptyString, Repo (branches r) (remotes r) (Some b), t')
        | None => (ExitNonZero, r, t)
        end
    | None => (ExitNonZero, r, t)
    end.

(** A shell started outside any repository: every command fails. *)
Definition nowhere (cmd : string) (r : repo) (t : fs)
    : answer * repo * fs :=
  (ExitNonZero, r, t).

Definition readme : fs := {[ "README.md" := File "# Magician Platform" ]}.

(** Two branches that track a [README.md] only, and one remote-tracking
    name. *)
Definition two_branches : repo :=
  Repo [("main", readme); ("feature-x", readme)] ["origin/main"] (Some "main").

(** The same repository with [HEAD] detached. *)
Definition detached : repo :=
  Repo [("main", readme); ("feature-x", readme)] ["origin/main"] None.

(** [main] tracks an empty-looking [config] folder, [next] tracks a
    [config/settings.py] of its own, [zeta] tracks nothing. *)
Definition main_tree : fs :=
  {[ "config" := Dir; "config/.keep" := File EmptyString ]}.

Definition next_tree : fs :=
  {[ "config" := Dir; "config/settings.py" := File "DEBUG = True" ]}.

Definition clash : repo :=
  Repo [("main", main_tree); ("next", next_tree); ("zeta", ∅)]
       [] (Some "main").

(** A tree that holds everything the manifest asks for. *)
Definition complete : fs :=
  list_to_map ((λ p, (p, Dir)) <$> ("resources" :: keys required_structure))
  ∪ list_to_map ((λ p, (p, File EmptyString)) <$>
                   (required_structure ≫= (λ item, os_path_join item.1 <$> item.2))).

Definition everything : repo :=
  Repo [("main", complete)] [] (Some "main").

(** A tree with the folders of the manifest and none of its files but
    [config/settings.py]. *)
Definition folders_only : fs :=
  <[ "config/settings.py" := File "DEBUG = True" ]>
    (list_to_map ((λ p, (p, Dir)) <$> ("resources" :: keys required_structure))).

Definition skeleton : repo :=
  Repo [("main", folders_only)] [] (Some "main").

(** The world the script starts [main] in, with [AUTO_FIX] as given. *)
Definition start (auto_fix : bool) (r : repo) (t : fs) : world repo :=
  World required_structure auto_fix r t [].

End ToyGit.

(** ** The manifest in closed form *)

(** The literal with the names of the variants appended, folder by folder,
    in the order of the variants. *)
Definition manifest_with (variants : list string) : manifest :=
  [ ("orchestration",
     ["base_magician.py"; "router.py"]
       ++ ((λ m, m +:+ "_magician.py") <$> variants));
    ("resources/models", []);
    ("resources/services", []);
    ("lifecycle",
     variants ≫= (λ m, ["vacuum_" +:+ m +:+ "_data.py";
                         "retrain_" +:+ m +:+ ".py"]));
    ("api", (λ m, "routes_" +:+ m +:+ ".py") <$> variants);
    ("config", ["settings.py"]);
    ("tests",
     variants ≫= (λ m, ["test_" +:+ m +:+ "_api.py";
                         "test_" +:+ m +:+ "_magician.py"])) ].

(** The number of file names a manifest asks for. *)
Definition file_count (m : manifest) : nat :=
  length (m ≫= snd).

(** ** The export script ([lifecycle/vacuum_data.py]) *)

Module Vacuum.

Inductive error : Type :=
  | OperationalError                (* [psycopg2.connect] *)
  | DatabaseError (query : string)  (* [pd.read_sql] *)
  | OSError (path : string).        (* [df.to_csv] *)

Global Instance error_eq_dec : EqDecision error.
Proof. solve_decision. Defined.

(** Line 14. *)
Definition QUERY : string := "SELECT * FROM users;".

(** Line 21. *)
Definition PATH : string := "resources/data/raw/users.csv".

(** Line 22. *)
Definition DONE : string := "Vacuum complete.".

(** The connections the process holds open, the working directory, and what
    was printed. *)
Record world : Type := World {
  connections : nat;
  tree : fs;
  stdout : list string
}.

Global Instance world_eq_dec : EqDecision world.
Proof. solve_decision. Defined.

Section Script.

(** A [pandas.DataFrame]. *)
Context {frame : Type}.

(** The server during the run: whether it accepts the connection of lines 6
    to 12, and what [pd.read_sql] makes of a query on that connection,
    [None] when it raises. *)
Variable accepts : bool.
Variable read_sql : string → option frame.

(** The text [to_csv(path, index=False)] writes for a frame. *)
Variable csv : frame → string.

(** Lines 5 to 17. *)
Definition fetch_data (w : world) : world * (error + frame) :=
  if accepts then
    let w := World (S (connections w)) (tree w) (stdout w) in   (* [connect] *)
    match read_sql QUERY with
    | Some df =>
        (World (pred (connections w)) (tree w) (stdout w), inr df)  (* [close] *)
    | None => (w, inl (DatabaseError QUERY))
    end
  else (w, inl OperationalError).

(** Lines 19 to 22. *)
Definition export (w : world) : world * (error + unit) :=
  match fetch_data w with
  | (w, inr df) =>
      match write_file PATH (csv df) (tree w) with
      | Some t =>
          (World (connections w) t (stdout w ++ [DONE]), inr tt)
      | None => (w, inl (OSError PATH))
      end
  | (w, inl e) => (w, inl e)
  end.

End Script.

End Vacuum.

(** ** More cases to run the auditor and the export against *)

Module Cases.

(** A repository with no local branch: the listing holds the line of a
    remote-tracking branch only. *)
Definition fresh : ToyGit.repo := ToyGit.Repo [] ["origin/main"] (Some "main").

(** A manifest with a folder listed after a folder below it. *)
Definition nested : manifest := [("a/b", []); ("a", ["x"])].

Definition nested_world (auto_fix : bool) : world ToyGit.repo :=
  World nested auto_fix ToyGit.two_branches ToyGit.readme [].

(** A branch where [config] is a regular file. *)
Definition config_file : fs := {[ "config" := File "DEBUG = True" ]}.

Definition flat : ToyGit.repo :=
  ToyGit.Repo [("main", config_file)] [] (Some "main").

(** A local branch whose name holds the word [remotes]. *)
Definition with_remotes_word : ToyGit.repo :=
  ToyGit.Repo [("main", ToyGit.readme); ("fix-remotes-url", ToyGit.readme)]
              [] (Some "main").

(** A frame as the list of its rows, and its text with one row a line. *)
Definition rows := list string.

Definition csv (df : rows) : string :=
  foldr (λ row text, row +:+ String LF text) EmptyString df.

Definition users : rows := ["id,name"; "1,ada"; "2,grace"].

Definition answers (query : string) : option rows :=
  if decide (query = Vacuum.QUERY) then Some users else None.

Definition refuses (query : string) : option rows := None.



(** The tool in a repository whose branch names hold bytes that are not
    UTF-8: what a command writes does not decode. *)
Definition garbled (cmd : string) (r : ToyGit.repo) (t : fs)
    : answer * ToyGit.repo * fs :=
  match ToyGit.sh cmd r t with
  | (Output _, r', t') => (NotUtf8, r', t')
  | other => other
  end.

(** A working directory with the folder the export writes into. *)
Definition export_ready : fs :=
  {[ "resources" := Dir; "resources/data" := Dir; "resources/data/raw" := Dir ]}.

End Cases.

(** * Properties *)

(** ** Manifest construction *)

Lemma dict_append_keys key v d d' :
  dict_append key v d = Some d' → keys d' = keys d.
Proof.
  revert d'. induction d as [|[k vs] d IH]; intros d'; simpl; [done|].
  case_decide as Hk.
  - intros [= <-]. done.
  - destruct (dict_append key v d) as [d0|]; simpl; [|done].
    intros [= <-]. unfold keys in *. simpl. f_equal. by apply IH.
Qed.

Lemma dict_append_total key v d :
  key ∈ keys d → is_Some (dict_append key v d).
Proof.
  induction d as [|[k vs] d IH]; simpl.
  - by intros ?%elem_of_nil.
  - intros Hin. case_decide as Hk; [by eexists|].
    apply elem_of_cons in Hin as [->|Hin]; [done|].
    destruct (IH Hin) as [d' ->]. by eexists.
Qed.

Lemma add_magician_total m d :
  keys d = keys BASE_STRUCTURE →
  ∃ d', add_magician m d = Some d' ∧ keys d' = keys BASE_STRUCTURE.
Proof.
  intros Hk. unfold add_magician.
  repeat
    (let v := fresh "d" in
     let E := fresh "E" in
     lazymatch goal with
     | |- context [dict_append ?k ?x ?d0] =>
         destruct (dict_append_total k x d0) as [v E];
         [ rewrite Hk; vm_compute; set_solver
         | rewrite E; simpl;
           apply dict_append_keys in E; rewrite Hk in E; clear Hk;
           rename E into Hk ]
     end).
  eexists. split; [done|]. done.
Qed.

Lemma add_magicians_total ms d :
  keys d = keys BASE_STRUCTURE →
  ∃ d', add_magicians ms d = Some d' ∧ keys d' = keys BASE_STRUCTURE.
Proof.
  revert d. induction ms as [|m ms IH]; intros d Hk; simpl.
  - by exists d.
  - destruct (add_magician_total m d Hk) as (d1 & -> & Hk1). simpl.
    by apply IH.
Qed.

Lemma build_manifest_total variants :
  ∃ d, build_manifest variants = Some d ∧ keys d = keys BASE_STRUCTURE.
Proof. by apply add_magicians_total. Qed.

Lemma required_structure_built :
  build_manifest MAGICIANS = Some required_structure.
Proof. reflexivity. Qed.

Lemma required_structure_independent : independent required_structure = true.
Proof. vm_compute. reflexivity. Qed.

(** ** The branch enumerator *)

Lemma chars_replace_empty old s :
  Str.chars (Str.replace old EmptyString s) = filter (λ c, c ≠ old) (Str.chars s).
Proof.
  induction s as [|c s IH]; simpl; [done|].
  rewrite filter_cons. case_decide as Hc.
  - rewrite decide_False by (intros Hne; by apply Hne).
    change (EmptyString +:+ ?x) with x. apply IH.
  - rewrite decide_True by done. simpl. by rewrite IH.
Qed.

Lemma chars_lstrip c s : c ∈ Str.chars (Str.lstrip s) → c ∈ Str.chars s.
Proof.
  induction s as [|d s IH]; simpl; [done|].
  destruct (Str.is_space d); [|done].
  intros Hin. apply elem_of_cons. right. by apply IH.
Qed.

Lemma chars_rstrip c s : c ∈ Str.chars (Str.rstrip s) → c ∈ Str.chars s.
Proof.
  induction s as [|d s IH]; simpl; [done|].
  destruct (Str.rstrip s) as [|e r] eqn:Hr.
  - destruct (Str.is_space d); simpl.
    + by intros ?%elem_of_nil.
    + intros ->%list_elem_of_singleton. apply elem_of_cons. by left.
  - simpl. intros [->|Hin]%elem_of_cons; apply elem_of_cons; [by left|].
    right. by apply IH.
Qed.

Lemma chars_strip c s : c ∈ Str.chars (Str.strip s) → c ∈ Str.chars s.
Proof. intros Hin. by apply chars_lstrip, chars_rstrip. Qed.

Lemma branch_name_no_asterisk b :
  "*"%char ∉ Str.chars (Str.strip (Str.replace "*" EmptyString b)).
Proof.
  intros Hin%chars_strip. rewrite chars_replace_empty in Hin.
  apply list_elem_of_filter in Hin as [Hne _]. by apply Hne.
Qed.

(** ** The working tree *)

Lemma mkdir_exist_ok_spec p (t t' : fs) :
  mkdir_exist_ok p t = Some t' →
  t ⊆ t' ∧ t' !! p = Some Dir ∧ ∀ q, q ≠ p → t' !! q = t !! q.
Proof.
  unfold mkdir_exist_ok. destruct (t !! p) as [[|c]|] eqn:Hp; intros [= <-].
  - done.
  - split; [by apply insert_subseteq|]. split; [by rewrite lookup_insert_eq|].
    intros q Hq. by rewrite lookup_insert_ne.
Qed.

Lemma mkdirs_none ps :
  foldl (λ (ot : option fs) p, ot ≫= mkdir_exist_ok p) None ps = None.
Proof. induction ps as [|p ps IH]; simpl; [done|]. apply IH. Qed.

Lemma mkdirs_spec ps (t t' : fs) :
  foldl (λ (ot : option fs) p, ot ≫= mkdir_exist_ok p) (Some t) ps = Some t' →
  t ⊆ t' ∧ ∀ q, q ∉ ps → t' !! q = t !! q.
Proof.
  revert t. induction ps as [|p ps IH]; intros t; simpl.
  - by intros [= <-].
  - destruct (mkdir_exist_ok p t) as [t1|] eqn:Hmk; simpl.
    + intros Hfold. apply IH in Hfold as [Hsub Hframe].
      apply mkdir_exist_ok_spec in Hmk as (Hsub1 & _ & Hframe1).
      split; [by etrans|].
      intros q Hq. apply not_elem_of_cons in Hq as [Hne Hq].
      rewrite Hframe by done. by apply Hframe1.
    + by rewrite mkdirs_none.
Qed.

Lemma makedirs_spec name (t t' : fs) :
  makedirs name t = Some t' →
  t ⊆ t' ∧ t' !! name = Some Dir ∧
  ∀ q, q ∉ above name → q ≠ name → t' !! q = t !! q.
Proof.
  unfold makedirs. destruct (Str.truthy name); [|done].
  destruct (foldl _ (Some t) (above name)) as [t1|] eqn:Hfold; simpl; [|done].
  intros (Hsub2 & Hdir & Hframe2)%mkdir_exist_ok_spec.
  apply mkdirs_spec in Hfold as [Hsub1 Hframe1].
  split; [by etrans|]. split; [done|].
  intros q Hq Hne. rewrite Hframe2 by done. by apply Hframe1.
Qed.

Lemma write_file_spec path content (t t' : fs) :
  write_file path content t = Some t' → t' = <[path := File content]> t.
Proof.
  unfold write_file. intros H.
  repeat case_match; by simplify_eq.
Qed.

Lemma path_exists_false (t : fs) p : path_exists t p = false ↔ t !! p = None.
Proof. unfold path_exists. by destruct (t !! p). Qed.

Lemma path_exists_true (t : fs) p : path_exists t p = true ↔ is_Some (t !! p).
Proof.
  unfold path_exists. destruct (t !! p) as [x|]; split; try done.
Qed.

Lemma path_exists_mono (t t' : fs) p :
  t ⊆ t' → path_exists t p = true → path_exists t' p = true.
Proof.
  rewrite !path_exists_true. intros Hsub [x Hx].
  exists x. by eapply lookup_weaken.
Qed.

(** ** What a pass reports, as a function of the tree *)

Lemma files_missing_ext (t t' : fs) folder files :
  (∀ f, f ∈ files → t' !! os_path_join folder f = t !! os_path_join folder f) →
  files_missing t' folder files = files_missing t folder files.
Proof.
  unfold files_missing. intros Hext. f_equal.
  induction files as [|f files IH]; [done|].
  rewrite !filter_cons.
  assert (path_exists t' (os_path_join folder f)
          = path_exists t (os_path_join folder f)) as ->.
  { unfold path_exists. rewrite Hext; [done|]. apply elem_of_cons. by left. }
  rewrite IH; [done|]. intros g Hg. apply Hext, elem_of_cons. by right.
Qed.

Lemma checked_paths_cons folder files m :
  checked_paths ((folder, files) :: m)
  = folder :: (os_path_join folder <$> files) ++ checked_paths m.
Proof. reflexivity. Qed.

Lemma folder_checked m folder files :
  (folder, files) ∈ m → folder ∈ checked_paths m.
Proof.
  intros Hin. apply list_elem_of_bind. exists (folder, files).
  split; [|done]. apply elem_of_cons. by left.
Qed.

Lemma file_checked m folder files f :
  (folder, files) ∈ m → f ∈ files → os_path_join folder f ∈ checked_paths m.
Proof.
  intros Hin Hf. apply list_elem_of_bind. exists (folder, files).
  split; [|done]. apply elem_of_cons. right. by apply list_elem_of_fmap_2.
Qed.

Lemma all_missing_cons (t : fs) item m :
  all_missing t (item :: m) = item_missing t item ++ all_missing t m.
Proof. reflexivity. Qed.

Lemma all_missing_ext (t t' : fs) m :
  (∀ p, p ∈ checked_paths m → t' !! p = t !! p) →
  all_missing t' m = all_missing t m.
Proof.
  induction m as [|[folder files] m IH]; intros Hext; [done|].
  rewrite !all_missing_cons. rewrite checked_paths_cons in Hext.
  f_equal.
  - assert (path_exists t' folder = path_exists t folder) as Hf.
    { unfold path_exists. rewrite (Hext folder); [done|].
      apply elem_of_cons. by left. }
    unfold item_missing. simpl. rewrite Hf.
    destruct (path_exists t folder); [|done].
    apply files_missing_ext. intros f Hin. apply Hext.
    apply elem_of_cons. right. apply elem_of_app. left.
    by apply list_elem_of_fmap_2.
  - apply IH. intros p Hp. apply Hext.
    apply elem_of_cons. right. apply elem_of_app. by right.
Qed.

Lemma conforms_all_missing (t : fs) m : conforms t m → all_missing t m = [].
Proof.
  induction m as [|[folder files] m IH]; intros Hc; [done|].
  rewrite all_missing_cons, IH.
  - rewrite app_nil_r. unfold item_missing. simpl.
    destruct (Hc folder files) as [-> Hfiles]; [apply elem_of_cons; by left|].
    unfold files_missing. clear Hc IH.
    induction files as [|f files IH]; [done|].
    rewrite filter_cons, decide_False.
    + apply IH. intros g Hg. apply Hfiles, elem_of_cons. by right.
    + rewrite Hfiles; [done|]. apply elem_of_cons. by left.
  - intros F fs HF. apply Hc, elem_of_cons. by right.
Qed.

(** ** One audit pass *)

Section Pass.

Context {repo : Type}.
Variable sh : string → repo → fs → answer * repo * fs.
Implicit Types (w : world repo) (m : manifest) (missing : list string).

Lemma set_tree_id w : set_tree (tree w) w = w.
Proof. by destruct w. Qed.

Lemma set_tree_twice (t t' : fs) w : set_tree t' (set_tree t w) = set_tree t' w.
Proof. reflexivity. Qed.

Lemma check_branch_eq branch w :
  check_branch sh branch w =
  match checked_out sh branch w with
  | (Output _, w1) => check_folders (REQUIRED_STRUCTURE w) [] w1
  | (ExitNonZero, w1) => (w1, inl (CalledProcessError (checkout branch)))
  | (NotUtf8, w1) => (w1, inl UnicodeDecodeError)
  end.
Proof.
  unfold check_branch, checked_out, bind, print, run, gets, set_outside. simpl.
  by destruct (sh (checkout branch) (vcs w) (tree w)) as [[[out| |] r] t].
Qed.

(** *** Without auto-fix *)

Lemma check_files_report_only folder files missing w :
  AUTO_FIX w = false →
  check_files folder files missing w
  = (w, inr (missing ++ files_missing (tree w) folder files)).
Proof.
  intros Hfix. revert missing.
  induction files as [|f files IH]; intros missing; simpl.
  - unfold ret, files_missing. simpl. by rewrite app_nil_r.
  - unfold bind at 1, os_path_exists, gets at 1. unfold files_missing.
    rewrite filter_cons.
    destruct (path_exists (tree w) (os_path_join folder f)) eqn:Hthere.
    + rewrite decide_False by done. apply IH.
    + rewrite decide_True by done.
      unfold bind at 1, gets at 1. rewrite Hfix. unfold when, bind at 1, ret.
      rewrite IH. unfold files_missing. simpl.
      by rewrite <- app_assoc.
Qed.

Lemma check_folders_report_only m missing w :
  AUTO_FIX w = false →
  check_folders m missing w = (w, inr (missing ++ all_missing (tree w) m)).
Proof.
  intros Hfix. revert missing.
  induction m as [|[folder files] m IH]; intros missing.
  - unfold ret. simpl. by rewrite app_nil_r.
  - rewrite all_missing_cons. cbn [check_folders].
    unfold bind at 1, os_path_exists, gets at 1.
    unfold item_missing. cbn [fst snd].
    destruct (path_exists (tree w) folder) eqn:Hthere.
    + unfold bind at 1. rewrite check_files_report_only by done.
      rewrite IH. by rewrite <- app_assoc.
    + unfold bind at 1, gets at 1. rewrite Hfix. unfold when, bind at 1, ret.
      rewrite IH. by rewrite <- app_assoc.
Qed.

(** *** A tree that holds the whole manifest *)

Lemma check_files_conforming folder files missing w :
  (∀ f, f ∈ files → path_exists (tree w) (os_path_join folder f) = true) →
  check_files folder files missing w = (w, inr missing).
Proof.
  induction files as [|f files IH]; intros Hall; simpl; [done|].
  unfold bind at 1, os_path_exists, gets at 1.
  rewrite Hall by (apply elem_of_cons; by left).
  apply IH. intros g Hg. apply Hall, elem_of_cons. by right.
Qed.

Lemma check_folders_conforming m missing w :
  conforms (tree w) m →
  check_folders m missing w = (w, inr missing).
Proof.
  induction m as [|[folder files] m IH]; intros Hc; simpl; [done|].
  destruct (Hc folder files) as [Hfolder Hfiles]; [apply elem_of_cons; by left|].
  unfold bind at 1, os_path_exists, gets at 1. rewrite Hfolder.
  unfold bind at 1. rewrite check_files_conforming by done.
  apply IH. intros F fs HF. apply Hc, elem_of_cons. by right.
Qed.

(** *** With auto-fix *)

Lemma check_files_fix folder files missing w w' out :
  AUTO_FIX w = true →
  NoDup (os_path_join folder <$> files) →
  check_files folder files missing w = (w', inr out) →
  w' = set_tree (tree w') w ∧
  out = missing ++ files_missing (tree w) folder files ∧
  tree w ⊆ tree w' ∧
  (∀ q, q ∉ os_path_join folder <$> files → tree w' !! q = tree w !! q) ∧
  (∀ f, f ∈ files → tree w !! os_path_join folder f = None →
        tree w' !! os_path_join folder f = Some (File (placeholder f))).
Proof.
  intros Hfix. revert missing w Hfix.
  induction files as [|f files IH]; intros missing w Hfix Hnd; simpl.
  - unfold ret. intros [= <- <-]. rewrite set_tree_id.
    unfold files_missing. simpl. rewrite app_nil_r.
    repeat split; try done. by intros f ?%elem_of_nil.
  - rewrite fmap_cons in Hnd. apply NoDup_cons in Hnd as [Hf Hnd].
    unfold bind at 1, os_path_exists, gets at 1.
    unfold files_missing. rewrite filter_cons.
    destruct (path_exists (tree w) (os_path_join folder f)) eqn:Hthere.
    + rewrite decide_False by done.
      intros (Hw & Hout & Hsub & Hframe & Hnew)%IH; [|done..].
      repeat split; try done.
      * intros q [_ Hq]%not_elem_of_cons. by apply Hframe.
      * intros g [->|Hg]%elem_of_cons Hnone; [|by apply Hnew].
        apply path_exists_false in Hnone. congruence.
    + rewrite decide_True by done.
      unfold bind at 1, gets at 1. rewrite Hfix.
      unfold when, bind at 1, open_write.
      destruct (write_file _ _ (tree w)) as [t1|] eqn:Hwrite; [|done].
      apply write_file_spec in Hwrite as ->.
      apply path_exists_false in Hthere.
      intros (Hw & Hout & Hsub & Hframe & Hnew)%IH; [|done..].
      simpl in Hout, Hsub, Hframe, Hnew.
      assert (∀ g, g ∈ files →
                <[os_path_join folder f := File (placeholder f)]> (tree w)
                  !! os_path_join folder g = tree w !! os_path_join folder g)
        as Hsame.
      { intros g Hg. apply lookup_insert_ne. intros Heq. apply Hf.
        rewrite Heq. by apply list_elem_of_fmap_2. }
      repeat split.
      * by rewrite Hw at 1.
      * rewrite Hout, (files_missing_ext (tree w) _ folder files Hsame).
        by rewrite <- app_assoc.
      * etrans; [|done]. by apply insert_subseteq.
      * intros q [Hne Hq]%not_elem_of_cons.
        rewrite Hframe by done. by rewrite lookup_insert_ne.
      * intros g [->|Hg]%elem_of_cons Hnone.
        -- rewrite Hframe by done. by rewrite lookup_insert_eq.
        -- apply Hnew; [done|]. by rewrite Hsame.
Qed.

Lemma above_folders_cons folder files m :
  above_folders ((folder, files) :: m) = above folder ++ above_folders m.
Proof. reflexivity. Qed.

Lemma check_folders_fix m missing w w' out :
  AUTO_FIX w = true →
  NoDup (checked_paths m) →
  (∀ p, p ∈ checked_paths m → p ∉ above_folders m) →
  check_folders m missing w = (w', inr out) →
  w' = set_tree (tree w') w ∧
  out = missing ++ all_missing (tree w) m ∧
  tree w ⊆ tree w' ∧
  (∀ q, q ∉ checked_paths m → q ∉ above_folders m →
        tree w' !! q = tree w !! q) ∧
  (∀ folder files, (folder, files) ∈ m → tree w !! folder = None →
        tree w' !! folder = Some Dir) ∧
  (∀ folder files f, (folder, files) ∈ m → is_Some (tree w !! folder) →
        f ∈ files → tree w !! os_path_join folder f = None →
        tree w' !! os_path_join folder f = Some (File (placeholder f))).
Proof.
  intros Hfix. revert missing w Hfix.
  induction m as [|[folder files] m IH]; intros missing w Hfix Hnd Habove.
  { simpl. unfold ret. intros [= <- <-]. rewrite set_tree_id.
    unfold all_missing. simpl. rewrite app_nil_r.
    repeat split; try done.
    - by intros ?? ?%elem_of_nil.
    - by intros ??? ?%elem_of_nil. }
  rewrite checked_paths_cons in Hnd, Habove.
  setoid_rewrite above_folders_cons in Habove.
  apply NoDup_cons in Hnd as [Hfolder Hnd].
  apply NoDup_app in Hnd as (Hfiles & Hdisj & Hnd).
  assert (∀ p, p ∈ checked_paths m →
            p ≠ folder ∧ (p ∉ (os_path_join folder <$> files)) ∧ p ∉ above folder)
    as Hrest.
  { intros p Hp. split; [|split].
    - intros ->. apply Hfolder, elem_of_app. by right.
    - intros Hin. by apply (Hdisj p).
    - intros Hin. apply (Habove p).
      + apply elem_of_cons. right. apply elem_of_app. by right.
      + apply elem_of_app. by left. }
  assert (∀ p, p ∈ checked_paths m → p ∉ above_folders m) as Habove'.
  { intros p Hp Hin. apply (Habove p).
    - apply elem_of_cons. right. apply elem_of_app. by right.
    - apply elem_of_app. by right. }
  rewrite all_missing_cons, checked_paths_cons. cbn [check_folders].
  setoid_rewrite above_folders_cons.
  unfold bind at 1, os_path_exists, gets at 1.
  unfold item_missing. cbn [fst snd].
  destruct (path_exists (tree w) folder) eqn:Hthere.
  - (* the folder is there: its files are checked *)
    unfold bind at 1.
    destruct (check_files folder files missing w) as [w1 [e|out1]] eqn:Hcf;
      [done|].
    apply check_files_fix in Hcf as (Hw1 & Hout1 & Hsub1 & Hframe1 & Hnew1);
      [|done..].
    assert (∀ p, p ∈ checked_paths m → tree w1 !! p = tree w !! p) as Hsame.
    { intros p Hp. apply Hframe1. by apply Hrest. }
    intros (Hw & Hout & Hsub & Hframe & Hdirs & Hnew)%IH;
      [|by rewrite Hw1|done..].
    split; [rewrite Hw at 1; by rewrite Hw1|].
    split; [by rewrite Hout, Hout1, (all_missing_ext (tree w)), <- app_assoc|].
    split; [by etrans|].
    split; [|split].
    + intros q [Hne [Hq1 Hq2]%not_elem_of_app]%not_elem_of_cons
               [Hq3 Hq4]%not_elem_of_app.
      rewrite Hframe by done. by apply Hframe1.
    + intros F fs [[= -> ->]|HF]%elem_of_cons Hnone.
      * apply path_exists_false in Hnone. congruence.
      * apply (Hdirs F fs HF). rewrite Hsame; [done|].
        by eapply folder_checked.
    + intros F fs f [[= -> ->]|HF]%elem_of_cons HFthere Hf Hnone.
      * eapply lookup_weaken; [|done]. by apply Hnew1.
      * assert (F ∈ checked_paths m) as HF1 by (by eapply folder_checked).
        assert (os_path_join F f ∈ checked_paths m) as HF2
          by (by eapply file_checked).
        apply (Hnew F fs f HF); [by rewrite Hsame|done|by rewrite Hsame].
  - (* the folder is missing: it is created, and its files are skipped *)
    unfold bind at 1, gets at 1. rewrite Hfix.
    unfold when, bind at 1, os_makedirs.
    destruct (makedirs folder (tree w)) as [t1|] eqn:Hmk; [|done].
    apply makedirs_spec in Hmk as (Hsub1 & Hdir1 & Hframe1).
    assert (∀ p, p ∈ checked_paths m → t1 !! p = tree w !! p) as Hsame.
    { intros p Hp. apply Hframe1; by apply Hrest. }
    intros (Hw & Hout & Hsub & Hframe & Hdirs & Hnew)%IH; [|done..].
    simpl in Hout, Hsub, Hframe, Hdirs, Hnew.
    split; [by rewrite Hw at 1|].
    split; [by rewrite Hout, (all_missing_ext (tree w)), <- app_assoc|].
    split; [by etrans|].
    split; [|split].
    + intros q [Hne [Hq1 Hq2]%not_elem_of_app]%not_elem_of_cons
               [Hq3 Hq4]%not_elem_of_app.
      rewrite Hframe by done. by apply Hframe1.
    + intros F fs [[= -> ->]|HF]%elem_of_cons Hnone.
      * by eapply lookup_weaken.
      * apply (Hdirs F fs HF). rewrite Hsame; [done|].
        by eapply folder_checked.
    + intros F fs f [[= -> ->]|HF]%elem_of_cons HFthere Hf Hnone.
      * apply path_exists_false in Hthere. rewrite Hthere in HFthere.
        by destruct HFthere.
      * assert (F ∈ checked_paths m) as HF1 by (by eapply folder_checked).
        assert (os_path_join F f ∈ checked_paths m) as HF2
          by (by eapply file_checked).
        apply (Hnew F fs f HF); [by rewrite Hsame|done|by rewrite Hsame].
Qed.

(** *** What a pass never touches

    Whatever the outcome, a pass changes the tree only. *)

Lemma check_files_fields folder files missing w :
  ∃ t', (check_files folder files missing w).1 = set_tree t' w.
Proof.
  revert missing w. induction files as [|f files IH]; intros missing w; simpl.
  { exists (tree w). by rewrite set_tree_id. }
  unfold bind at 1, os_path_exists, gets at 1.
  destruct (path_exists _ _); [apply IH|].
  unfold bind at 1, gets at 1, when.
  destruct (AUTO_FIX w).
  - unfold bind at 1, open_write.
    destruct (write_file _ _ _) as [t1|].
    + destruct (IH (missing ++ [missing_file (os_path_join folder f)])
                  (set_tree t1 w)) as [t' Ht'].
      exists t'. by rewrite Ht'.
    + exists (tree w). by rewrite set_tree_id.
  - unfold bind at 1, ret. apply IH.
Qed.

Lemma check_folders_fields m missing w :
  ∃ t', (check_folders m missing w).1 = set_tree t' w.
Proof.
  revert missing w.
  induction m as [|[folder files] m IH]; intros missing w; simpl.
  { exists (tree w). by rewrite set_tree_id. }
  unfold bind at 1, os_path_exists, gets at 1.
  destruct (path_exists _ _).
  - unfold bind at 1.
    destruct (check_files_fields folder files missing w) as [t1 Ht1].
    destruct (check_files folder files missing w) as [w1 [e|out1]];
      simpl in Ht1; subst w1.
    + by exists t1.
    + destruct (IH out1 (set_tree t1 w)) as [t' Ht']. exists t'.
      by rewrite Ht'.
  - unfold bind at 1, gets at 1, when.
    destruct (AUTO_FIX w).
    + unfold bind at 1, os_makedirs.
      destruct (makedirs _ _) as [t1|].
      * destruct (IH (missing ++ [missing_folder folder]) (set_tree t1 w))
          as [t' Ht'].
        exists t'. by rewrite Ht'.
      * exists (tree w). by rewrite set_tree_id.
    + unfold bind at 1, ret. apply IH.
Qed.

Lemma checked_out_fields branch w :
  ∃ r' t', (checked_out sh branch w).2
           = World (REQUIRED_STRUCTURE w) (AUTO_FIX w) r' t'
                   (stdout w ++ [banner branch]).
Proof.
  unfold checked_out.
  destruct (sh (checkout branch) (vcs w) (tree w)) as [[o r] t]. by exists r, t.
Qed.

Lemma check_branch_fields branch w :
  ∃ r' t', (check_branch sh branch w).1
           = World (REQUIRED_STRUCTURE w) (AUTO_FIX w) r' t'
                   (stdout w ++ [banner branch]).
Proof.
  rewrite check_branch_eq.
  destruct (checked_out_fields branch w) as (r1 & t1 & Hw1).
  destruct (checked_out sh branch w) as [[out| |] w1]; simpl in Hw1; subst w1.
  - match goal with
    | |- context [check_folders ?m ?l ?w0] =>
        destruct (check_folders_fields m l w0) as [t' ->]
    end.
    by exists r1, t'.
  - by exists r1, t1.
  - by exists r1, t1.
Qed.

Lemma audit_branches_app pre rest rep w :
  audit_branches sh (pre ++ rest) rep w =
  match audit_branches sh pre rep w with
  | (w1, inr rep1) => audit_branches sh rest rep1 w1
  | (w1, inl e) => (w1, inl e)
  end.
Proof.
  revert rep w. induction pre as [|b pre IH]; intros rep w; simpl; [done|].
  destruct (Str.truthy b); [|apply IH].
  unfold bind.
  destruct (check_branch sh b w) as [w1 [e|missing]]; [done|]. apply IH.
Qed.

Lemma audit_branches_fields branches rep w :
  ∃ r' t' seen,
    (audit_branches sh branches rep w).1
    = World (REQUIRED_STRUCTURE w) (AUTO_FIX w) r' t'
            (stdout w ++ (banner <$> seen)) ∧
    seen `prefix_of` filter (λ b, Str.truthy b = true) branches ∧
    (∀ rep', (audit_branches sh branches rep w).2 = inr rep' →
     seen = filter (λ b, Str.truthy b = true) branches).
Proof.
  revert rep w. induction branches as [|b bs IH]; intros rep w; simpl.
  { exists (vcs w), (tree w), []. simpl. rewrite app_nil_r.
    split; [by destruct w|]. split; [done|]. done. }
  rewrite filter_cons.
  destruct (Str.truthy b) eqn:Hb.
  - rewrite decide_True by done. unfold bind.
    destruct (check_branch_fields b w) as (r1 & t1 & Hw1).
    destruct (check_branch sh b w) as [w1 [e|missing]];
      simpl in Hw1; subst w1.
    + exists r1, t1, [b]. simpl. split; [done|].
      split; [|by intros ? [=]].
      apply prefix_cons, prefix_nil.
    + match goal with
      | |- context [audit_branches sh bs ?rep0 ?w0] =>
          destruct (IH rep0 w0) as (r' & t' & seen & Hw & Hpre & Hall)
      end.
      exists r', t', (b :: seen). rewrite Hw. simpl.
      rewrite <- app_assoc. split; [done|].
      split; [by apply prefix_cons|].
      intros rep' Hok. by rewrite (Hall rep' Hok).
  - rewrite decide_False by done. apply IH.
Qed.

End Pass.

(** ** Entries of the list and the paths they name *)

Lemma missing_folder_inj a b : missing_folder a = missing_folder b → a = b.
Proof. unfold missing_folder. apply String.app_inj. Qed.

Lemma missing_file_inj a b : missing_file a = missing_file b → a = b.
Proof. unfold missing_file. apply String.app_inj. Qed.

Lemma missing_folder_not_file a b : missing_folder a ≠ missing_file b.
Proof. intros H. cbv in H. discriminate. Qed.

Lemma elem_of_files_missing (t : fs) folder files e :
  e ∈ files_missing t folder files ↔
  ∃ f, f ∈ files ∧ path_exists t (os_path_join folder f) = false ∧
       e = missing_file (os_path_join folder f).
Proof.
  unfold files_missing. rewrite list_elem_of_fmap. split.
  - intros (f & -> & [Hf Hin]%list_elem_of_filter). by exists f.
  - intros (f & Hin & Hf & ->). exists f. split; [done|].
    by apply list_elem_of_filter.
Qed.

Lemma elem_of_all_missing (t : fs) m e :
  e ∈ all_missing t m ↔
  ∃ folder files, (folder, files) ∈ m ∧
    (path_exists t folder = false ∧ e = missing_folder folder ∨
     path_exists t folder = true ∧ e ∈ files_missing t folder files).
Proof.
  unfold all_missing. rewrite list_elem_of_bind. split.
  - intros ([folder files] & He & Hin). exists folder, files. split; [done|].
    unfold item_missing in He. simpl in He.
    destruct (path_exists t folder); [by right|].
    left. by apply list_elem_of_singleton in He.
  - intros (folder & files & Hin & He). exists (folder, files). split; [|done].
    unfold item_missing. simpl.
    destruct He as [[-> ->]|[-> He]]; [|done]. by apply list_elem_of_singleton.
Qed.

(** In a manifest whose checked paths are all different, a path is checked
    for one item only. *)
Lemma checked_path_owner m item1 item2 p :
  NoDup (checked_paths m) →
  item1 ∈ m → item2 ∈ m →
  p ∈ item1.1 :: (os_path_join item1.1 <$> item1.2) →
  p ∈ item2.1 :: (os_path_join item2.1 <$> item2.2) →
  item1 = item2.
Proof.
  induction m as [|[folder files] m IH]; intros Hnd H1 H2 Hp1 Hp2.
  { by apply elem_of_nil in H1. }
  rewrite checked_paths_cons in Hnd.
  change (folder :: (os_path_join folder <$> files) ++ checked_paths m)
    with ((folder :: (os_path_join folder <$> files)) ++ checked_paths m) in Hnd.
  apply NoDup_app in Hnd as (_ & Hdisj & Hnd).
  assert (∀ item, item ∈ m → p ∈ item.1 :: (os_path_join item.1 <$> item.2) →
            p ∈ checked_paths m) as Hin.
  { intros item Hitem Hp. apply list_elem_of_bind. by exists item. }
  apply elem_of_cons in H1 as [->|H1], H2 as [->|H2].
  - done.
  - destruct (Hdisj p); eauto.
  - destruct (Hdisj p); eauto.
  - by apply IH.
Qed.

Lemma independent_spec m :
  independent m = true →
  NoDup (checked_paths m) ∧ ∀ p, p ∈ checked_paths m → p ∉ above_folders m.
Proof.
  unfold independent.
  intros [[_ Hnd%bool_decide_eq_true]%andb_prop Habove]%andb_prop.
  split; [done|]. intros p Hp.
  rewrite forallb_forall in Habove.
  apply list_elem_of_In, Habove in Hp. by apply bool_decide_eq_true in Hp.
Qed.

(** For the file names and folders of an independent manifest,
    [os.path.join] puts one [/] between the folder and the name. *)

Lemma startswith_contains c s :
  Str.startswith c s = true → Str.contains (String c EmptyString) s = true.
Proof.
  destruct s as [|d s]; simpl; [done|].
  intros ->%bool_decide_eq_true.
  destruct (ascii_dec c c) as [_|Hne]; [|by destruct Hne].
  by destruct s.
Qed.

Lemma endswith_split c s :
  Str.endswith c s = true →
  ∃ w l, Str.split c s = w :: l ++ [EmptyString].
Proof.
  induction s as [|d s IH]; [done|].
  destruct s as [|e s'].
  - simpl. intros ->%bool_decide_eq_true.
    rewrite decide_True by done. by exists EmptyString, [].
  - intros Hend. destruct IH as (w & l & Hsplit); [done|].
    change (Str.split c (String d (String e s'))) with
      (if decide (d = c) then EmptyString :: Str.split c (String e s')
       else match Str.split c (String e s') with
            | w :: ws => String d w :: ws
            | [] => [String d EmptyString]
            end).
    rewrite Hsplit. case_decide.
    + by exists EmptyString, (w :: l).
    + by exists (String d w), l.
Qed.

Lemma normal_path_join folder f :
  normal_path folder = true →
  Str.contains "/" f = false →
  os_path_join folder f = folder +:+ "/" +:+ f.
Proof.
  intros Hfolder Hf. unfold os_path_join.
  destruct (Str.startswith "/" f) eqn:Hstart.
  { apply startswith_contains in Hstart. congruence. }
  destruct folder as [|c folder]; [done|].
  change (Str.truthy (String c folder)) with true. cbn [negb orb].
  destruct (Str.endswith "/" (String c folder)) eqn:Hend; [|done].
  apply endswith_split in Hend as (w & l & Hsplit).
  unfold normal_path in Hfolder. rewrite Hsplit in Hfolder.
  simpl in Hfolder. apply andb_prop in Hfolder as [_ Hl].
  rewrite forallb_app in Hl. apply andb_prop in Hl as [_ Hl]. done.
Qed.

Lemma independent_join m folder files f :
  independent m = true → (folder, files) ∈ m → f ∈ files →
  os_path_join folder f = folder +:+ "/" +:+ f.
Proof.
  unfold independent, normal_form.
  intros [[Hnormal _]%andb_prop _]%andb_prop Hin Hf.
  rewrite forallb_forall in Hnormal.
  apply list_elem_of_In, Hnormal in Hin. simpl in Hin.
  apply andb_prop in Hin as [Hfolder Hfiles].
  rewrite forallb_forall in Hfiles.
  apply list_elem_of_In, Hfiles in Hf.
  apply andb_prop in Hf as [_ Hslash%negb_true_iff].
  by apply normal_path_join.
Qed.

(** ** Paths as strings *)

Lemma app_empty_r s : s +:+ EmptyString = s.
Proof.
  induction s as [|c s IH]; [done|].
  change (String c s +:+ EmptyString) with (String c (s +:+ EmptyString)).
  by rewrite IH.
Qed.

Lemma app_assoc_string a b c : (a +:+ b) +:+ c = a +:+ b +:+ c.
Proof.
  induction a as [|d a IH]; [done|].
  change (String d ((a +:+ b) +:+ c) = String d (a +:+ b +:+ c)).
  by rewrite IH.
Qed.

Lemma split_nonempty c s : Str.split c s ≠ [].
Proof.
  induction s as [|d s IH]; simpl; [done|].
  case_decide; [done|]. by destruct (Str.split c s).
Qed.

Lemma split_app c s t :
  Str.split c (s +:+ String c t) = Str.split c s ++ Str.split c t.
Proof.
  induction s as [|d s IH].
  - change (EmptyString +:+ String c t) with (String c t).
    cbn [Str.split]. by rewrite decide_True.
  - change (String d s +:+ String c t) with (String d (s +:+ String c t)).
    cbn [Str.split]. rewrite IH. case_decide; [done|].
    destruct (Str.split c s) as [|w' ws'] eqn:Hs; [|done].
    by apply split_nonempty in Hs.
Qed.

Lemma split_no_separator c s :
  Str.contains (String c EmptyString) s = false → Str.split c s = [s].
Proof.
  induction s as [|d s IH]; [done|].
  cbn [Str.contains String.prefix].
  destruct (ascii_dec c d) as [->|Hne].
  - by destruct s.
  - cbn [orb]. intros Hs. cbn [Str.split].
    rewrite decide_False by (intros ->; by apply Hne).
    by rewrite IH.
Qed.

Lemma last_paths_from pre s :
  last (paths_from pre (Str.split "/" s)) = Some (pre +:+ s).
Proof.
  revert pre. induction s as [|d s IH]; intros pre; [done|].
  cbn [Str.split]. case_decide as Hd.
  - subst d. cbn [paths_from]. rewrite last_cons, IH.
    by rewrite app_assoc_string.
  - specialize (IH (pre +:+ String d EmptyString)).
    destruct (Str.split "/" s) as [|w ws] eqn:Hs;
      [by apply split_nonempty in Hs|].
    cbn [paths_from] in IH |- *.
    rewrite !app_assoc_string in IH. apply IH.
Qed.

Lemma parent_join folder f :
  normal_path folder = true →
  Str.contains "/" f = false →
  parent (os_path_join folder f) = Some folder.
Proof.
  intros Hfolder Hf. rewrite normal_path_join by done.
  unfold parent, above.
  change (folder +:+ "/" +:+ f) with (folder +:+ String "/" f).
  rewrite split_app, (split_no_separator _ _ Hf), removelast_last.
  apply last_paths_from.
Qed.



Lemma independent_parent m folder files f :
  independent m = true → (folder, files) ∈ m → f ∈ files →
  parent (os_path_join folder f) = Some folder.
Proof.
  unfold independent, normal_form.
  intros [[Hnormal _]%andb_prop _]%andb_prop Hin Hf.
  rewrite forallb_forall in Hnormal.
  apply list_elem_of_In, Hnormal in Hin. simpl in Hin.
  apply andb_prop in Hin as [Hfolder Hfiles].
  rewrite forallb_forall in Hfiles.
  apply list_elem_of_In, Hfiles in Hf.
  apply andb_prop in Hf as [_ Hslash%negb_true_iff].
  by apply parent_join.
Qed.


(** ** When a pass with auto-fix returns *)






Section Returns.

Context {repo : Type}.
Implicit Types (w : world repo) (m : manifest) (missing : list string).



End Returns.


Lemma conformsb_conforms (t : fs) m : conformsb t m = true → conforms t m.
Proof.
  unfold conformsb, conforms. rewrite forallb_forall.
  intros Hall folder files Hin%list_elem_of_In%Hall. simpl in Hin.
  apply andb_prop in Hin as [Hfolder Hfiles]. split; [done|].
  rewrite forallb_forall in Hfiles. intros f Hf. by apply Hfiles, list_elem_of_In.
Qed.

(** ** The audit of one branch *)

Section Audit.

Context {repo : Type}.
Variable sh : string → repo → fs → answer * repo * fs.
Implicit Types (w : world repo) (m : manifest) (missing : list string).

Lemma checked_out_globals branch w o w1 :
  checked_out sh branch w = (o, w1) →
  REQUIRED_STRUCTURE w1 = REQUIRED_STRUCTURE w ∧ AUTO_FIX w1 = AUTO_FIX w ∧
  stdout w1 = stdout w ++ [banner branch].
Proof.
  unfold checked_out.
  destruct (sh (checkout branch) (vcs w) (tree w)) as [[o' r] t].
  by intros [= _ <-].
Qed.

(** Without auto-fix the audit is a function of the tree the checkout
    left, and it leaves that world as it is. *)
Lemma audit_report_only branch w out w1 :
  AUTO_FIX w = false →
  checked_out sh branch w = (Output out, w1) →
  check_branch sh branch w
  = (w1, inr (all_missing (tree w1) (REQUIRED_STRUCTURE w))).
Proof.
  intros Hfix Hco. rewrite check_branch_eq, Hco.
  apply checked_out_globals in Hco as (_ & Hfix1 & _).
  rewrite check_folders_report_only by congruence. done.
Qed.

(** With auto-fix and an independent manifest, an audit that returns
    reports what was missing in the tree the checkout left, creates the
    missing folders and the missing files of the folders that were there,
    and changes nothing else. *)
Lemma audit_fix branch w out w1 w' missing :
  AUTO_FIX w = true →
  independent (REQUIRED_STRUCTURE w) = true →
  checked_out sh branch w = (Output out, w1) →
  check_branch sh branch w = (w', inr missing) →
  w' = set_tree (tree w') w1 ∧
  missing = all_missing (tree w1) (REQUIRED_STRUCTURE w) ∧
  tree w1 ⊆ tree w' ∧
  (∀ q, q ∉ checked_paths (REQUIRED_STRUCTURE w) →
        q ∉ above_folders (REQUIRED_STRUCTURE w) →
        tree w' !! q = tree w1 !! q) ∧
  (∀ folder files, (folder, files) ∈ REQUIRED_STRUCTURE w →
        tree w1 !! folder = None → tree w' !! folder = Some Dir) ∧
  (∀ folder files f, (folder, files) ∈ REQUIRED_STRUCTURE w →
        is_Some (tree w1 !! folder) → f ∈ files →
        tree w1 !! os_path_join folder f = None →
        tree w' !! os_path_join folder f = Some (File (placeholder f))).
Proof.
  intros Hfix [Hnd Habove]%independent_spec Hco.
  rewrite check_branch_eq, Hco.
  apply checked_out_globals in Hco as (_ & Hfix1 & _).
  intros Hpass. apply check_folders_fix in Hpass; [done|congruence|done..].
Qed.

(** In both modes, with an independent manifest, the list an audit returns
    is the list of what was missing in the tree the checkout left. *)
Lemma audit_missing branch w out w1 w' missing :
  independent (REQUIRED_STRUCTURE w) = true →
  checked_out sh branch w = (Output out, w1) →
  check_branch sh branch w = (w', inr missing) →
  missing = all_missing (tree w1) (REQUIRED_STRUCTURE w).
Proof.
  intros Hind Hco Hrun. destruct (AUTO_FIX w) eqn:Hfix.
  - by eapply audit_fix.
  - rewrite (audit_report_only _ _ _ _ Hfix Hco) in Hrun. by simplify_eq.
Qed.

(** After an audit with auto-fix, every folder of the manifest is there,
    and so is every file of a folder that the audit found there. *)
Lemma audit_fix_exists branch w out w1 w' missing :
  AUTO_FIX w = true →
  independent (REQUIRED_STRUCTURE w) = true →
  checked_out sh branch w = (Output out, w1) →
  check_branch sh branch w = (w', inr missing) →
  ∀ folder files, (folder, files) ∈ REQUIRED_STRUCTURE w →
    path_exists (tree w') folder = true ∧
    (path_exists (tree w1) folder = true →
     ∀ f, f ∈ files → path_exists (tree w') (os_path_join folder f) = true).
Proof.
  intros Hfix Hind Hco Hrun.
  destruct (audit_fix _ _ _ _ _ _ Hfix Hind Hco Hrun)
    as (_ & _ & Hsub & _ & Hdirs & Hfiles).
  intros folder files Hin. split.
  - destruct (tree w1 !! folder) as [n|] eqn:Hfolder.
    + apply (path_exists_mono (tree w1)); [done|].
      apply path_exists_true. by rewrite Hfolder.
    + apply path_exists_true. rewrite (Hdirs folder files); done.
  - intros Hfolder%path_exists_true f Hf.
    destruct (tree w1 !! os_path_join folder f) as [n|] eqn:Hfile.
    + apply (path_exists_mono (tree w1)); [done|].
      apply path_exists_true. by rewrite Hfile.
    + apply path_exists_true. rewrite (Hfiles folder files f); done.
Qed.


End Audit.

(** ** The whole run *)

Section Run.

Context {repo : Type}.
Variable sh : string → repo → fs → answer * repo * fs.
Implicit Types (w : world repo) (rep : report).

Lemma check_branch_globals branch w w' res :
  check_branch sh branch w = (w', res) →
  REQUIRED_STRUCTURE w' = REQUIRED_STRUCTURE w ∧ AUTO_FIX w' = AUTO_FIX w ∧
  stdout w' = stdout w ++ [banner branch].
Proof.
  intros Hrun. destruct (check_branch_fields sh branch w) as (r' & t' & Hw).
  rewrite Hrun in Hw. simpl in Hw. by subst w'.
Qed.

Lemma dict_set_keys key v rep k :
  k ∈ (dict_set key v rep).*1 → k = key ∨ k ∈ rep.*1.
Proof.
  induction rep as [|[k' v'] rep IH]; simpl.
  - intros ->%list_elem_of_singleton. by left.
  - case_decide as Hk; simpl.
    + intros Hin. by right.
    + intros [->|Hin]%elem_of_cons.
      * right. apply elem_of_cons. by left.
      * destruct (IH Hin) as [->|Hin']; [by left|].
        right. apply elem_of_cons. by right.
Qed.

(** Skipping the empty names in the loop is filtering them out before. *)
Lemma audit_branches_filter branches rep w :
  audit_branches sh branches rep w
  = audit_branches sh (filter (λ b, Str.truthy b = true) branches) rep w.
Proof.
  revert rep w. induction branches as [|b bs IH]; intros rep w; [done|].
  rewrite filter_cons. simpl. destruct (Str.truthy b) eqn:Hb.
  - rewrite decide_True by done. simpl. rewrite Hb. unfold bind.
    destruct (check_branch sh b w) as [w1 [e|missing]]; [done|]. apply IH.
  - rewrite decide_False by done. apply IH.
Qed.

(** The report holds entries for audited branches only. *)
Lemma audit_branches_keys branches rep w w' rep' k :
  audit_branches sh branches rep w = (w', inr rep') →
  k ∈ rep'.*1 → k ∈ rep.*1 ∨ k ∈ branches.
Proof.
  revert rep w. induction branches as [|b bs IH]; intros rep w; simpl.
  - intros [= <- <-]. by left.
  - destruct (Str.truthy b).
    + unfold bind.
      destruct (check_branch sh b w) as [w1 [e|missing]]; [done|].
      intros Hrun Hk. destruct (IH _ _ Hrun Hk) as [Hin|Hin].
      * apply dict_set_keys in Hin as [->|Hin]; [|by left].
        right. apply elem_of_cons. by left.
      * right. apply elem_of_cons. by right.
    + intros Hrun Hk. destruct (IH _ _ Hrun Hk) as [Hin|Hin]; [by left|].
      right. apply elem_of_cons. by right.
Qed.

(** The run after a listing that succeeded: the enumerated branches are
    audited in order, then the report is printed. *)
Lemma main_enumerates w raw r t :
  sh "git branch -a" (vcs w) (tree w) = (Output raw, r, t) →
  main sh w =
  bind (audit_branches sh (enumerate_branches raw) [])
       (λ rep, bind (print final_banner) (λ _, print (Json.dumps rep)))
       (set_outside r t w).
Proof.
  intros Hls. unfold main, bind at 1, run. rewrite Hls.
  unfold bind at 1 3. unfold enumerate_branches.
  by rewrite <- audit_branches_filter.
Qed.

Lemma main_fields w :
  ∃ r' t' printed,
    (main sh w).1 = World (REQUIRED_STRUCTURE w) (AUTO_FIX w) r' t' printed.
Proof.
  unfold main, bind at 1, run.
  destruct (sh "git branch -a" (vcs w) (tree w)) as [[[out| |] r] t];
    [|by eexists _, _, _..].
  unfold bind at 1.
  match goal with
  | |- context [audit_branches sh ?bs ?rep0 ?w0] =>
      destruct (audit_branches_fields sh bs rep0 w0)
        as (r' & t' & seen & Hw & _);
      destruct (audit_branches sh bs rep0 w0) as [w1 [e|rep]]
  end; simpl in Hw; subst w1; by eexists _, _, _.
Qed.

Lemma main_globals w :
  REQUIRED_STRUCTURE (main sh w).1 = REQUIRED_STRUCTURE w ∧
  AUTO_FIX (main sh w).1 = AUTO_FIX w.
Proof. by destruct (main_fields w) as (r' & t' & printed & ->). Qed.

End Run.

(** ** What is printed *)

Lemma banner_not_final branch : banner branch ≠ final_banner.
Proof. intros H. cbv in H. discriminate. Qed.

Lemma dumps_opens_brace rep : ∃ s, Json.dumps rep = String "{" s.
Proof. destruct rep as [|kv rep]; eexists; reflexivity. Qed.

Lemma banner_not_report branch rep : banner branch ≠ Json.dumps rep.
Proof.
  destruct (dumps_opens_brace rep) as [s ->]. unfold banner. discriminate.
Qed.

Lemma enumerated_truthy raw pre b post :
  enumerate_branches raw = pre ++ b :: post →
  Str.truthy b = true ∧ filter (λ b, Str.truthy b = true) pre = pre.
Proof.
  unfold enumerate_branches. intros Heq.
  assert (Forall (λ b, Str.truthy b = true) (pre ++ b :: post)) as Hall.
  { rewrite <- Heq. apply Forall_forall. by intros x [? _]%list_elem_of_filter. }
  apply Forall_app in Hall as [Hpre Hb%Forall_cons_1]. split; [apply Hb|].
  clear Heq. induction Hpre as [|x l Hx Hl IH]; [done|].
  rewrite filter_cons, decide_True by done. by rewrite IH.
Qed.

(** ** Two runs of the script *)

(** With [HEAD] detached the listing opens with a line that is no branch
    name; its checkout fails and the run ends there. *)
Example script_with_detached_head :
  snd <$> script ToyGit.sh ToyGit.detached ToyGit.readme
  = Some (inl (CalledProcessError "git checkout (HEAD detached at 1a2b3c4)")).
Proof. vm_compute. reflexivity. Qed.

(** On a tree that holds the whole manifest the script prints one banner and
    a report with an empty list. *)
Example script_on_complete_tree :
  (λ res, (stdout res.1, res.2))
    <$> script ToyGit.sh ToyGit.everything ToyGit.complete
  = Some ([banner "main"; final_banner; Json.dumps [("main", [])]], inr tt).
Proof. vm_compute. reflexivity. Qed.

(** * The statements of the specification *)

(** Claim C1, as the specification states it, fails: on a branch that tracks
    a [README.md] only, the first run with auto-fix reports the seven folders
    and creates them without looking at their files (the [continue] of line
    45), so the second run, whose checkout leaves the tree as the first run
    left it, reports the twenty-one files. *)
Lemma second_autofix_run_not_empty :
  let w0 := ToyGit.start true ToyGit.two_branches ToyGit.readme in
  let run1 := check_branch ToyGit.sh "main" w0 in
  let run2 := check_branch ToyGit.sh "main" run1.1 in
  run1.2 = inr [ "Missing folder: orchestration";
                 "Missing folder: resources/models";
                 "Missing folder: resources/services";
                 "Missing folder: lifecycle";
                 "Missing folder: api";
                 "Missing folder: config";
                 "Missing folder: tests" ] ∧
  tree (checked_out ToyGit.sh "main" run1.1).2 = tree run1.1 ∧
  run2.2 = inr [ "Missing file: orchestration/base_magician.py";
                 "Missing file: orchestration/router.py";
                 "Missing file: orchestration/job_magician.py";
                 "Missing file: orchestration/business_magician.py";
                 "Missing file: orchestration/developer_magician.py";
                 "Missing file: lifecycle/vacuum_job_data.py";
                 "Missing file: lifecycle/retrain_job.py";
                 "Missing file: lifecycle/vacuum_business_data.py";
                 "Missing file: lifecycle/retrain_business.py";
                 "Missing file: lifecycle/vacuum_developer_data.py";
                 "Missing file: lifecycle/retrain_developer.py";
                 "Missing file: api/routes_job.py";
                 "Missing file: api/routes_business.py";
                 "Missing file: api/routes_developer.py";
                 "Missing file: config/settings.py";
                 "Missing file: tests/test_job_api.py";
                 "Missing file: tests/test_job_magician.py";
                 "Missing file: tests/test_business_api.py";
                 "Missing file: tests/test_business_magician.py";
                 "Missing file: tests/test_developer_api.py";
                 "Missing file: tests/test_developer_magician.py" ] ∧
  run2.2 ≠ inr [].
Proof. repeat split; compute_done. Qed.

(** Claim C1, as amended.  For a branch whose checkouts succeed, each
    repeated checkout leaving the working tree as the run before left it, and
    runs with auto-fix that return: the list of the second run holds no
    [Missing folder] entry; it is empty when every folder of the manifest was
    there when the first run audited; and a third run returns the empty
    list. *)
Theorem autofix_settles {repo}
    (sh : string → repo → fs → answer * repo * fs)
    branch (w c1 w1 c2 w2 : world repo) out1 out2 missing1 missing2 :
  REQUIRED_STRUCTURE w = required_structure →
  AUTO_FIX w = true →
  checked_out sh branch w = (Output out1, c1) →
  check_branch sh branch w = (w1, inr missing1) →
  checked_out sh branch w1 = (Output out2, c2) →
  tree c2 = tree w1 →
  check_branch sh branch w1 = (w2, inr missing2) →
  (∀ folder, missing_folder folder ∉ missing2) ∧
  ((∀ folder, folder ∈ keys required_structure →
      path_exists (tree c1) folder = true) →
   missing2 = []) ∧
  (∀ out3 c3,
     checked_out sh branch w2 = (Output out3, c3) →
     tree c3 = tree w2 →
     check_branch sh branch w2 = (c3, inr [])).
Proof.
  intros Hm Hfix Hco1 Hrun1 Hco2 Htree2 Hrun2.
  pose proof required_structure_independent as Hind.
  destruct (check_branch_globals sh _ _ _ _ Hrun1) as (Hm1 & Hfix1 & _).
  destruct (check_branch_globals sh _ _ _ _ Hrun2) as (Hm2 & Hfix2 & _).
  rewrite Hm in Hm1. rewrite Hfix in Hfix1.
  rewrite Hm1 in Hm2. rewrite Hfix1 in Hfix2.
  pose proof (audit_fix_exists sh _ _ _ _ _ _ Hfix
                ltac:(by rewrite Hm) Hco1 Hrun1) as Hafter1.
  pose proof (audit_fix_exists sh _ _ _ _ _ _ Hfix1
                ltac:(by rewrite Hm1) Hco2 Hrun2) as Hafter2.
  rewrite Hm in Hafter1. rewrite Hm1, Htree2 in Hafter2.
  pose proof (audit_missing sh _ _ _ _ _ _
                ltac:(by rewrite Hm1) Hco2 Hrun2) as ->.
  rewrite Hm1, Htree2. split; [|split].
  - intros folder (G & gs & HG & [[Habsent _]|[_ He]])%elem_of_all_missing.
    + destruct (Hafter1 G gs HG) as [Hthere _]. congruence.
    + apply elem_of_files_missing in He as (g & _ & _ & Heq).
      by apply missing_folder_not_file in Heq.
  - intros Hall. apply conforms_all_missing. intros folder files Hin.
    destruct (Hafter1 folder files Hin) as [Hthere Hfiles].
    split; [done|]. apply Hfiles, Hall.
    apply list_elem_of_fmap. exists (folder, files). split; [reflexivity|exact Hin].
  - intros out3 c3 Hco3 Htree3.
    rewrite check_branch_eq, Hco3. apply check_folders_conforming.
    rewrite Hm2, Htree3. intros folder files Hin.
    destruct (Hafter2 folder files Hin) as [Hthere Hfiles].
    split; [done|]. apply Hfiles. by apply (Hafter1 folder files Hin).
Qed.

Lemma autofix_settles_witness :
  let sh := ToyGit.sh in
  let w := ToyGit.start true ToyGit.two_branches ToyGit.readme in
  let w1 := (check_branch sh "main" w).1 in
  let w2 := (check_branch sh "main" w1).1 in
  let v := ToyGit.start true ToyGit.skeleton ToyGit.folders_only in
  let v1 := (check_branch sh "main" v).1 in
  (∀ folder, missing_folder folder ∉ all_missing (tree w1) required_structure) ∧
  (check_branch sh "main" w2).2 = inr [] ∧
  all_missing (tree v1) required_structure = [].
Proof.
  intros sh w w1 w2 v v1.
  destruct (autofix_settles sh "main" w
              (checked_out sh "main" w).2 w1
              (checked_out sh "main" w1).2 w2
              EmptyString EmptyString
              (all_missing ToyGit.readme required_structure)
              (all_missing (tree w1) required_structure))
    as (Hfolders & _ & Hthird);
    [reflexivity|reflexivity|compute_done|compute_done|compute_done
    |compute_done|compute_done|].
  destruct (autofix_settles sh "main" v
              (checked_out sh "main" v).2 v1
              (checked_out sh "main" v1).2 (check_branch sh "main" v1).1
              EmptyString EmptyString
              (all_missing ToyGit.folders_only required_structure)
              (all_missing (tree v1) required_structure))
    as (_ & Hempty & _);
    [reflexivity|reflexivity|compute_done|compute_done|compute_done
    |compute_done|compute_done|].
  split; [exact Hfolders|]. split.
  - rewrite (Hthird EmptyString (checked_out sh "main" w2).2);
      [reflexivity|compute_done|compute_done].
  - apply Hempty. intros folder Hin.
    apply (Forall_forall (λ folder, path_exists (tree (checked_out sh "main" v).2)
                                      folder = true)
             (keys required_structure)); [compute_done|exact Hin].
Defined.

(** Claim C2.  Whatever [AUTO_FIX] is: for every folder of the manifest that
    is absent from the working tree when the audit starts (the tree the
    checkout left), the list the audit returns holds [Missing folder: F] and
    holds no [Missing file] entry for any file the manifest asks for in that
    folder. *)
Theorem missing_folder_reported_and_its_files_skipped {repo}
    (sh : string → repo → fs → answer * repo * fs)
    branch (w c w' : world repo) out missing folder files :
  REQUIRED_STRUCTURE w = required_structure →
  checked_out sh branch w = (Output out, c) →
  check_branch sh branch w = (w', inr missing) →
  (folder, files) ∈ required_structure →
  path_exists (tree c) folder = false →
  missing_folder folder ∈ missing ∧
  ∀ f, f ∈ files → missing_file (folder +:+ "/" +:+ f) ∉ missing.
Proof.
  intros Hm Hco Hrun Hin Habsent.
  assert (independent (REQUIRED_STRUCTURE w) = true) as Hind
    by (rewrite Hm; apply required_structure_independent).
  rewrite (audit_missing sh _ _ _ _ _ _ Hind Hco Hrun), Hm. split.
  - apply elem_of_all_missing. exists folder, files. split; [done|]. by left.
  - intros f Hf.
    rewrite <- (independent_join _ _ _ _ required_structure_independent Hin Hf).
    intros (G & gs & HG & [[_ Heq]|[HGthere He]])%elem_of_all_missing.
    + symmetry in Heq. by apply missing_folder_not_file in Heq.
    + apply elem_of_files_missing in He as (g & Hg & _ & Heq%missing_file_inj).
      assert ((folder, files) = (G, gs)) as [= <- <-]; [|congruence].
      apply (checked_path_owner required_structure _ _
               (os_path_join folder f)); try done.
      * apply independent_spec, required_structure_independent.
      * apply elem_of_cons. right. by apply list_elem_of_fmap_2.
      * rewrite Heq. apply elem_of_cons. right. by apply list_elem_of_fmap_2.
Qed.

Lemma missing_folder_reported_and_its_files_skipped_witness :
  (∃ missing,
     (check_branch ToyGit.sh "main"
        (ToyGit.start false ToyGit.two_branches ToyGit.readme)).2 = inr missing ∧
     missing_folder "config" ∈ missing ∧
     missing_file "config/settings.py" ∉ missing) ∧
  (∃ missing,
     (check_branch ToyGit.sh "main"
        (ToyGit.start true ToyGit.two_branches ToyGit.readme)).2 = inr missing ∧
     missing_folder "config" ∈ missing ∧
     missing_file "config/settings.py" ∉ missing).
Proof.
  split; exists (all_missing ToyGit.readme required_structure);
    (split; [compute_done|]).
  - destruct (missing_folder_reported_and_its_files_skipped ToyGit.sh "main"
                (ToyGit.start false ToyGit.two_branches ToyGit.readme)
                (checked_out ToyGit.sh "main"
                   (ToyGit.start false ToyGit.two_branches ToyGit.readme)).2
                (check_branch ToyGit.sh "main"
                   (ToyGit.start false ToyGit.two_branches ToyGit.readme)).1
                EmptyString
                (all_missing ToyGit.readme required_structure)
                "config" ["settings.py"]) as [Hfolder Hfiles].
    + reflexivity.
    + compute_done.
    + compute_done.
    + compute_done.
    + compute_done.
    + split; [exact Hfolder|]. apply (Hfiles "settings.py"). compute_done.
  - destruct (missing_folder_reported_and_its_files_skipped ToyGit.sh "main"
                (ToyGit.start true ToyGit.two_branches ToyGit.readme)
                (checked_out ToyGit.sh "main"
                   (ToyGit.start true ToyGit.two_branches ToyGit.readme)).2
                (check_branch ToyGit.sh "main"
                   (ToyGit.start true ToyGit.two_branches ToyGit.readme)).1
                EmptyString
                (all_missing ToyGit.readme required_structure)
                "config" ["settings.py"]) as [Hfolder Hfiles].
    + reflexivity.
    + compute_done.
    + compute_done.
    + compute_done.
    + compute_done.
    + split; [exact Hfolder|]. apply (Hfiles "settings.py"). compute_done.
Defined.

(** Claim C3.  For every branch and every manifest: when the checkout
    succeeds and the working tree it leaves holds every folder and every file
    of the manifest (a tree that holds exactly these is one such tree), the
    audit returns the empty list, whatever [AUTO_FIX] is, and leaves the world
    as the checkout left it. *)
Theorem conforming_tree_has_nothing_missing {repo}
    (sh : string → repo → fs → answer * repo * fs)
    branch (w c : world repo) out :
  checked_out sh branch w = (Output out, c) →
  conforms (tree c) (REQUIRED_STRUCTURE w) →
  check_branch sh branch w = (c, inr []).
Proof.
  intros Hco Hc. rewrite check_branch_eq, Hco.
  by apply check_folders_conforming.
Qed.

Lemma conforming_tree_has_nothing_missing_witness :
  (check_branch ToyGit.sh "main"
     (ToyGit.start false ToyGit.everything ToyGit.complete)).2 = inr [] ∧
  (check_branch ToyGit.sh "main"
     (ToyGit.start true ToyGit.everything ToyGit.complete)).2 = inr [].
Proof.
  split.
  - rewrite (conforming_tree_has_nothing_missing ToyGit.sh "main"
               (ToyGit.start false ToyGit.everything ToyGit.complete)
               (checked_out ToyGit.sh "main"
                  (ToyGit.start false ToyGit.everything ToyGit.complete)).2
               EmptyString).
    + reflexivity.
    + compute_done.
    + apply conformsb_conforms. vm_compute. reflexivity.
  - rewrite (conforming_tree_has_nothing_missing ToyGit.sh "main"
               (ToyGit.start true ToyGit.everything ToyGit.complete)
               (checked_out ToyGit.sh "main"
                  (ToyGit.start true ToyGit.everything ToyGit.complete)).2
               EmptyString).
    + reflexivity.
    + compute_done.
    + apply conformsb_conforms. vm_compute. reflexivity.
Defined.

(** Claim C4.  With [AUTO_FIX] off, the audit of a branch writes nothing: it
    returns, and the tree after it is the tree the checkout left.  Every
    folder of the manifest that is absent from that tree gives the entry
    [Missing folder: F] and is still absent afterwards; every file [f] that a
    folder [F] which is there lacks gives the entry [Missing file: F/f] and is
    still absent afterwards. *)
Theorem report_only_leaves_tree_unchanged {repo}
    (sh : string → repo → fs → answer * repo * fs)
    branch (w c : world repo) out :
  REQUIRED_STRUCTURE w = required_structure →
  AUTO_FIX w = false →
  checked_out sh branch w = (Output out, c) →
  ∃ w' missing,
    check_branch sh branch w = (w', inr missing) ∧
    tree w' = tree c ∧
    ∀ folder files, (folder, files) ∈ required_structure →
      (path_exists (tree c) folder = false →
         missing_folder folder ∈ missing ∧
         path_exists (tree w') folder = false) ∧
      (path_exists (tree c) folder = true →
         ∀ f, f ∈ files →
           path_exists (tree c) (folder +:+ "/" +:+ f) = false →
           missing_file (folder +:+ "/" +:+ f) ∈ missing ∧
           path_exists (tree w') (folder +:+ "/" +:+ f) = false).
Proof.
  intros Hm Hfix Hco. exists c, (all_missing (tree c) required_structure).
  split; [by rewrite (audit_report_only sh _ _ _ _ Hfix Hco), Hm|].
  split; [done|].
  intros folder files Hin. split.
  - intros Habsent. split; [|done].
    apply elem_of_all_missing. exists folder, files. split; [done|]. by left.
  - intros Hthere f Hf Habsent. split; [|done].
    apply elem_of_all_missing. exists folder, files. split; [done|]. right.
    split; [done|]. apply elem_of_files_missing. exists f.
    rewrite (independent_join _ _ _ _ required_structure_independent Hin Hf).
    done.
Qed.

Lemma report_only_leaves_tree_unchanged_witness :
  (∃ w' missing,
     check_branch ToyGit.sh "main"
       (ToyGit.start false ToyGit.skeleton ToyGit.folders_only)
     = (w', inr missing) ∧
     tree w' = ToyGit.folders_only ∧
     missing_file "api/routes_job.py" ∈ missing ∧
     path_exists (tree w') "api/routes_job.py" = false) ∧
  (∃ w' missing,
     check_branch ToyGit.sh "main"
       (ToyGit.start false ToyGit.two_branches ToyGit.readme)
     = (w', inr missing) ∧
     tree w' = ToyGit.readme ∧
     missing_folder "api" ∈ missing ∧
     path_exists (tree w') "api" = false).
Proof.
  split.
  - destruct (report_only_leaves_tree_unchanged ToyGit.sh "main"
                (ToyGit.start false ToyGit.skeleton ToyGit.folders_only)
                (checked_out ToyGit.sh "main"
                   (ToyGit.start false ToyGit.skeleton ToyGit.folders_only)).2
                EmptyString)
      as (w' & missing & Hrun & Htree & Hentries);
      [reflexivity|reflexivity|compute_done|].
    exists w', missing. split; [exact Hrun|]. split.
    + rewrite Htree. compute_done.
    + destruct (Hentries "api"
                  ["routes_job.py"; "routes_business.py"; "routes_developer.py"])
        as [_ Hfiles]; [compute_done|].
      apply (Hfiles ltac:(compute_done) "routes_job.py"); compute_done.
  - destruct (report_only_leaves_tree_unchanged ToyGit.sh "main"
                (ToyGit.start false ToyGit.two_branches ToyGit.readme)
                (checked_out ToyGit.sh "main"
                   (ToyGit.start false ToyGit.two_branches ToyGit.readme)).2
                EmptyString)
      as (w' & missing & Hrun & Htree & Hentries);
      [reflexivity|reflexivity|compute_done|].
    exists w', missing. split; [exact Hrun|]. split.
    + rewrite Htree. compute_done.
    + destruct (Hentries "api"
                  ["routes_job.py"; "routes_business.py"; "routes_developer.py"])
        as [Hfolder _]; [compute_done|].
      apply Hfolder. compute_done.
Defined.




(** Claim C6.  Given the raw listing
    ["* main\n  remotes/origin/main\n  feature-x\n"], the branch enumerator
    returns exactly [["main"; "feature-x"]]: the remote entry is dropped, the
    marker and the white space are stripped, no empty name is left.  The list
    of line 59 already is that sequence, and the names the loop of line 63
    audits are the same. *)
Theorem enumerator_scenario :
  let raw := "* main" +:+ String LF ("  remotes/origin/main" +:+
               String LF ("  feature-x" +:+ String LF EmptyString)) in
  branch_names (Str.split LF (Str.strip raw)) = ["main"; "feature-x"] ∧
  enumerate_branches raw = ["main"; "feature-x"].
Proof. split; reflexivity. Qed.

(** Claim C7.  Manifest construction with the variant list [["job"]] gives a
    mapping in which [orchestration] holds [job_magician.py], [lifecycle] holds
    [vacuum_job_data.py] and [retrain_job.py], [api] holds [routes_job.py], and
    [tests] holds [test_job_api.py] and [test_job_magician.py].  Construction
    cannot fail: for every variant list it yields exactly one manifest (no
    append meets a missing folder), so it is deterministic as well. *)
Theorem manifest_for_variant_job :
  (∃ d orchestration lifecycle api tests,
     build_manifest ["job"] = Some d ∧
     dict_get "orchestration" d = Some orchestration ∧
     "job_magician.py" ∈ orchestration ∧
     dict_get "lifecycle" d = Some lifecycle ∧
     "vacuum_job_data.py" ∈ lifecycle ∧ "retrain_job.py" ∈ lifecycle ∧
     dict_get "api" d = Some api ∧
     "routes_job.py" ∈ api ∧
     dict_get "tests" d = Some tests ∧
     "test_job_api.py" ∈ tests ∧ "test_job_magician.py" ∈ tests) ∧
  (∀ variants, exists! d, build_manifest variants = Some d).
Proof.
  split.
  - eexists _, _, _, _, _. split; [reflexivity|].
    repeat split; try reflexivity; set_solver.
  - intros variants. destruct (build_manifest_total variants) as (d & Hd & _).
    exists d. split; [done|]. intros d' Hd'. congruence.
Qed.

(** Claim C8.  A version-control command that exits with a non-zero status
    aborts the whole run with an error.  When the listing fails, [main] ends
    with the error and has printed nothing.  When the checkout of a branch
    fails after the branches before it were audited, [main] ends with the
    error of that checkout; what it has printed is the banners of the earlier
    branches and of the failing one, none of which is the banner of the final
    report or a report; and the report held entries for earlier branches
    only, none for the failing branch or a later one. *)
Theorem vcs_failure_aborts_run {repo}
    (sh : string → repo → fs → answer * repo * fs) (w : world repo) :
  (∀ r t,
     sh "git branch -a" (vcs w) (tree w) = (ExitNonZero, r, t) →
     ∃ w', main sh w = (w', inl (CalledProcessError "git branch -a")) ∧
           stdout w' = stdout w) ∧
  (∀ raw r t pre b post w1 rep w2,
     sh "git branch -a" (vcs w) (tree w) = (Output raw, r, t) →
     enumerate_branches raw = pre ++ b :: post →
     audit_branches sh pre [] (set_outside r t w) = (w1, inr rep) →
     checked_out sh b w1 = (ExitNonZero, w2) →
     main sh w = (w2, inl (CalledProcessError (checkout b))) ∧
     stdout w2 = stdout w ++ (banner <$> pre ++ [b]) ∧
     (final_banner ∉ (banner <$> pre ++ [b])) ∧
     (∀ rep', Json.dumps rep' ∉ (banner <$> pre ++ [b])) ∧
     (∀ k, k ∈ rep.*1 → k ∈ pre)).
Proof.
  split.
  - intros r t Hls. exists (set_outside r t w).
    unfold main, bind at 1, run. by rewrite Hls.
  - intros raw r t pre b post w1 rep w2 Hls Henum Hpre Hco.
    destruct (enumerated_truthy _ _ _ _ Henum) as [Hb Hfilter].
    split; [|split; [|split; [|split]]].
    + rewrite (main_enumerates sh _ _ _ _ Hls), Henum. unfold bind at 1.
      rewrite audit_branches_app, Hpre. cbn [audit_branches]. rewrite Hb.
      unfold bind at 1. by rewrite check_branch_eq, Hco.
    + destruct (audit_branches_fields sh pre [] (set_outside r t w))
        as (r' & t' & seen & Hw1 & _ & Hseen).
      rewrite Hpre in Hw1, Hseen. simpl in Hw1.
      rewrite (Hseen rep eq_refl), Hfilter in Hw1.
      apply checked_out_globals in Hco as (_ & _ & ->).
      rewrite Hw1. simpl. by rewrite fmap_app, app_assoc.
    + intros (x & Heq & _)%list_elem_of_fmap.
      symmetry in Heq. by apply banner_not_final in Heq.
    + intros rep' (x & Heq & _)%list_elem_of_fmap.
      symmetry in Heq. by apply banner_not_report in Heq.
    + intros k Hk.
      destruct (audit_branches_keys sh _ _ _ _ _ _ Hpre Hk) as [Hin|Hin];
        [by apply elem_of_nil in Hin|done].
Qed.

Lemma vcs_failure_aborts_run_witness :
  let w := ToyGit.start true ToyGit.clash ToyGit.main_tree in
  (main ToyGit.nowhere w).2 = inl (CalledProcessError "git branch -a") ∧
  stdout (main ToyGit.nowhere w).1 = [] ∧
  (main ToyGit.sh w).2 = inl (CalledProcessError "git checkout next") ∧
  stdout (main ToyGit.sh w).1 = [banner "main"; banner "next"].
Proof.
  intros w.
  destruct (vcs_failure_aborts_run ToyGit.nowhere w) as [Hlisting _].
  destruct (vcs_failure_aborts_run ToyGit.sh w) as [_ Hcheckout].
  destruct (Hlisting ToyGit.clash ToyGit.main_tree) as (w' & Hrun & Hout);
    [reflexivity|].
  destruct (Hcheckout (ToyGit.listing ToyGit.clash) ToyGit.clash ToyGit.main_tree
              ["main"] "next" ["zeta"]
              (audit_branches ToyGit.sh ["main"] [] w).1
              [("main", all_missing ToyGit.main_tree required_structure)]
              (checked_out ToyGit.sh "next"
                 (audit_branches ToyGit.sh ["main"] [] w).1).2)
    as (Hrun' & Hout' & _); [compute_done..|].
  split; [by rewrite Hrun|].
  split; [rewrite Hrun; exact Hout|].
  split; [by rewrite Hrun'|].
  rewrite Hrun'. exact Hout'.
Defined.

(** Claim C9.  The keys of the manifest are pairwise different folder paths,
    for the variant list of the script and for any other; and once the module
    body has built it, nothing changes the global that holds it: it is the
    same before and after the audit of a branch, with or without auto-fix and
    whatever the outcome, and the same before and after a whole run, report
    included. *)
Theorem manifest_keys_unique_and_manifest_immutable :
  NoDup (keys required_structure) ∧
  (∀ variants, ∃ d, build_manifest variants = Some d ∧ NoDup (keys d)) ∧
  (∀ repo (sh : string → repo → fs → answer * repo * fs) branch w,
     REQUIRED_STRUCTURE (check_branch sh branch w).1 = REQUIRED_STRUCTURE w) ∧
  (∀ repo (sh : string → repo → fs → answer * repo * fs) w,
     REQUIRED_STRUCTURE (main sh w).1 = REQUIRED_STRUCTURE w) ∧
  (∀ repo (sh : string → repo → fs → answer * repo * fs) r t,
     (λ res, REQUIRED_STRUCTURE res.1) <$> script sh r t
     = Some required_structure).
Proof.
  assert (NoDup (keys BASE_STRUCTURE)) as Hbase by compute_done.
  split; [|split; [|split; [|split]]].
  - destruct (build_manifest_total MAGICIANS) as (d & Hd & Hk).
    unfold required_structure. rewrite Hd. simpl. by rewrite Hk.
  - intros variants. destruct (build_manifest_total variants) as (d & Hd & Hk).
    exists d. split; [done|]. by rewrite Hk.
  - intros repo sh branch w.
    destruct (check_branch sh branch w) as [w' res] eqn:Hrun.
    by apply check_branch_globals in Hrun as (? & _).
  - intros repo sh w. apply main_globals.
  - intros repo sh r t. unfold script, module_globals.
    rewrite required_structure_built. simpl. f_equal.
    match goal with |- context [main sh ?w0] => apply (main_globals sh w0) end.
Qed.

(** Claim C10.  The branch enumerator deletes every asterisk of a line of the
    listing, wherever it stands: the characters of a name before stripping are
    those of its line without the asterisks; no name the enumerator returns
    holds an asterisk, so neither does a key of the report; and a line such as
    ["  feat*ure*"] gives the name ["feature"], which is the name the checkout
    command is built from. *)
Theorem asterisks_deleted_everywhere :
  (∀ line, Str.chars (Str.replace "*" EmptyString line)
           = filter (λ c, c ≠ "*"%char) (Str.chars line)) ∧
  (∀ raw name, name ∈ enumerate_branches raw → "*"%char ∉ Str.chars name) ∧
  (∀ repo (sh : string → repo → fs → answer * repo * fs)
     (w w' : world repo) raw rep name,
     audit_branches sh (enumerate_branches raw) [] w = (w', inr rep) →
     name ∈ rep.*1 → "*"%char ∉ Str.chars name) ∧
  enumerate_branches "  feat*ure*" = ["feature"] ∧
  checkout <$> enumerate_branches "  feat*ure*" = ["git checkout feature"].
Proof.
  assert (∀ raw name, name ∈ enumerate_branches raw →
            "*"%char ∉ Str.chars name) as Hnames.
  { intros raw name. unfold enumerate_branches, branch_names.
    intros [_ Hin]%list_elem_of_filter.
    apply list_elem_of_fmap in Hin as (line & -> & _).
    apply branch_name_no_asterisk. }
  split; [intros line; apply chars_replace_empty|].
  split; [exact Hnames|].
  split; [|by split].
  intros repo sh w w' raw rep name Hrun Hkey. apply (Hnames raw).
  destruct (audit_branches_keys sh _ _ _ _ _ _ Hrun Hkey) as [Hin|Hin];
    [by apply elem_of_nil in Hin|done].
Qed.

(** * Further properties of the code *)

(** ** Manifest construction (lines 5 to 27) *)

Lemma add_magicians_shape variants o l a t :
  add_magicians variants
    [ ("orchestration", o); ("resources/models", []);
      ("resources/services", []); ("lifecycle", l); ("api", a);
      ("config", ["settings.py"]); ("tests", t) ]
  = Some
      [ ("orchestration", o ++ ((λ m, m +:+ "_magician.py") <$> variants));
        ("resources/models", []);
        ("resources/services", []);
        ("lifecycle",
         l ++ (variants ≫= (λ m, ["vacuum_" +:+ m +:+ "_data.py";
                                   "retrain_" +:+ m +:+ ".py"])));
        ("api", a ++ ((λ m, "routes_" +:+ m +:+ ".py") <$> variants));
        ("config", ["settings.py"]);
        ("tests",
         t ++ (variants ≫= (λ m, ["test_" +:+ m +:+ "_api.py";
                                   "test_" +:+ m +:+ "_magician.py"]))) ].
Proof.
  revert o l a t. induction variants as [|m variants IH]; intros o l a t.
  - simpl. by rewrite !app_nil_r.
  - cbn [add_magicians].
    change (add_magician m _) with
      (Some [ ("orchestration", o ++ [m +:+ "_magician.py"]);
              ("resources/models", []);
              ("resources/services", []);
              ("lifecycle", (l ++ ["vacuum_" +:+ m +:+ "_data.py"])
                              ++ ["retrain_" +:+ m +:+ ".py"]);
              ("api", a ++ ["routes_" +:+ m +:+ ".py"]);
              ("config", ["settings.py"]);
              ("tests", (t ++ ["test_" +:+ m +:+ "_api.py"])
                          ++ ["test_" +:+ m +:+ "_magician.py"]) ]).
    simpl. rewrite IH. simpl. by rewrite <- !app_assoc.
Qed.

(** For every list of variants, construction gives the literal with the
    names of the variants appended folder by folder in the order of the
    variants; the folders and their order are those of the literal, and the
    manifest asks for three files and six more for each variant. *)
Theorem build_manifest_closed_form variants :
  build_manifest variants = Some (manifest_with variants) ∧
  keys (manifest_with variants) = keys BASE_STRUCTURE ∧
  file_count (manifest_with variants) = 3 + 6 * length variants.
Proof.
  split; [apply (add_magicians_shape variants)|]. split; [done|].
  unfold file_count, manifest_with. simpl.
  rewrite !length_app, !length_fmap. simpl.
  assert (∀ (f g : string → string),
            length (variants ≫= (λ m, [f m; g m])) = 2 * length variants) as Hbind.
  { intros f g. induction variants as [|m vs IH]; [done|].
    change (length (f m :: g m :: (vs ≫= (λ m, [f m; g m])))
            = 2 * length (m :: vs)).
    cbn [length]. rewrite IH. lia. }
  rewrite app_nil_r, !Hbind. lia.
Qed.

(** ** The audit pass (lines 38 to 55) *)

Section PassMore.

Context {repo : Type}.
Variable sh : string → repo → fs → answer * repo * fs.
Implicit Types (w : world repo) (m : manifest) (missing : list string).



(** An error inside the loops is an [OSError]. *)
Lemma check_files_error folder files missing w w' e :
  check_files folder files missing w = (w', inl e) → ∃ p, e = OSError p.
Proof.
  revert missing w. induction files as [|f files IH]; intros missing w.
  { done. }
  cbn [check_files]. unfold bind at 1, os_path_exists, gets at 1.
  destruct (path_exists _ _); [apply IH|].
  unfold bind at 1, gets at 1, when. destruct (AUTO_FIX w).
  - unfold bind at 1, open_write.
    destruct (write_file _ _ _); [apply IH|]. intros [= _ <-]. by eexists.
  - unfold bind at 1, ret. apply IH.
Qed.

Lemma check_folders_error m missing w w' e :
  check_folders m missing w = (w', inl e) → ∃ p, e = OSError p.
Proof.
  revert missing w. induction m as [|[folder files] m IH]; intros missing w.
  { done. }
  cbn [check_folders]. unfold bind at 1, os_path_exists, gets at 1.
  destruct (path_exists _ _).
  - unfold bind at 1.
    destruct (check_files folder files missing w) as [w1 [e1|out1]] eqn:Hcf.
    + intros [= _ <-]. by eapply check_files_error.
    + apply IH.
  - unfold bind at 1, gets at 1, when. destruct (AUTO_FIX w).
    + unfold bind at 1, os_makedirs.
      destruct (makedirs _ _); [apply IH|]. intros [= _ <-]. by eexists.
    + unfold bind at 1, ret. apply IH.
Qed.

(** With auto-fix, a regular file at the path of a folder stops the pass at
    the first file of that folder which is not there. *)
Lemma check_files_fix_blocked folder files missing w f content :
  AUTO_FIX w = true →
  tree w !! folder = Some (File content) →
  (∀ g, g ∈ files → parent (os_path_join folder g) = Some folder) →
  f ∈ files →
  tree w !! os_path_join folder f = None →
  ∃ w' p, check_files folder files missing w = (w', inl (OSError p)).
Proof.
  intros Hfix Hfolder. revert missing.
  induction files as [|g files IH]; intros missing Hparent Hf Habsent.
  { by apply elem_of_nil in Hf. }
  cbn [check_files]. unfold bind at 1, os_path_exists, gets at 1.
  destruct (path_exists (tree w) (os_path_join folder g)) eqn:Hthere.
  - apply IH; [|  |done].
    + intros h Hh. apply Hparent, elem_of_cons. by right.
    + apply elem_of_cons in Hf as [->|Hf]; [|done].
      apply path_exists_false in Habsent. congruence.
  - unfold bind at 1, gets at 1. rewrite Hfix.
    unfold when, bind at 1, open_write, write_file.
    apply path_exists_false in Hthere. rewrite Hthere.
    rewrite (Hparent g) by (apply elem_of_cons; by left).
    rewrite Hfolder. by eexists _, _.
Qed.

Lemma check_folders_fix_blocked m missing w folder files f content :
  AUTO_FIX w = true →
  NoDup (checked_paths m) →
  (∀ p, p ∈ checked_paths m → p ∉ above_folders m) →
  (∀ F fs g, (F, fs) ∈ m → g ∈ fs → parent (os_path_join F g) = Some F) →
  (folder, files) ∈ m → f ∈ files →
  tree w !! folder = Some (File content) →
  tree w !! os_path_join folder f = None →
  ∃ w' p, check_folders m missing w = (w', inl (OSError p)).
Proof.
  revert missing w.
  induction m as [|[F fs] m IH];
    intros missing w Hfix Hnd Habove Hparent Hin Hf Hfolder Habsent.
  { by apply elem_of_nil in Hin. }
  rewrite checked_paths_cons in Hnd, Habove.
  setoid_rewrite above_folders_cons in Habove.
  apply NoDup_cons in Hnd as [HF Hnd].
  apply NoDup_app in Hnd as (Hfiles & Hdisj & Hnd).
  cbn [check_folders]. unfold bind at 1, os_path_exists, gets at 1.
  apply elem_of_cons in Hin as [[= <- <-]|Hin].
  { assert (path_exists (tree w) folder = true) as ->
      by (apply path_exists_true; by rewrite Hfolder).
    unfold bind at 1.
    destruct (check_files_fix_blocked folder files missing w f content)
      as (w' & p & ->); try done; [|by eexists _, _].
    intros g Hg. apply (Hparent folder files); [|done].
    apply elem_of_cons. by left. }
  assert (folder ∈ checked_paths m) as Hc1 by (by eapply folder_checked).
  assert (os_path_join folder f ∈ checked_paths m) as Hc2
    by (by eapply file_checked).
  assert (∀ p, p ∈ checked_paths m →
            p ≠ F ∧ (p ∉ (os_path_join F <$> fs)) ∧ p ∉ above F) as Hrest.
  { intros p Hp. split; [|split].
    - intros ->. apply HF, elem_of_app. by right.
    - intros Hq. by apply (Hdisj p).
    - intros Hq. apply (Habove p).
      + apply elem_of_cons. right. apply elem_of_app. by right.
      + apply elem_of_app. by left. }
  assert (∀ p, p ∈ checked_paths m → p ∉ above_folders m) as Habove'.
  { intros p Hp Hq. apply (Habove p).
    - apply elem_of_cons. right. apply elem_of_app. by right.
    - apply elem_of_app. by right. }
  assert (∀ G gs g, (G, gs) ∈ m → g ∈ gs →
            parent (os_path_join G g) = Some G) as Hparent'.
  { intros G gs g HG. apply Hparent, elem_of_cons. by right. }
  destruct (path_exists (tree w) F) eqn:Hthere.
  - unfold bind at 1.
    destruct (check_files F fs missing w) as [w1 [e|out1]] eqn:Hcf.
    + apply check_files_error in Hcf as [p ->]. by eexists _, _.
    + apply check_files_fix in Hcf as (Hw1 & _ & _ & Hframe1 & _); [|done..].
      apply (IH out1 w1); try done.
      * by rewrite Hw1.
      * rewrite Hframe1; [done|]. by apply Hrest.
      * rewrite Hframe1; [done|]. by apply Hrest.
  - unfold bind at 1, gets at 1. rewrite Hfix.
    unfold when, bind at 1, os_makedirs.
    destruct (makedirs F (tree w)) as [t1|] eqn:Hmk; [|by eexists _, _].
    apply makedirs_spec in Hmk as (_ & _ & Hframe1).
    apply IH; try done; simpl.
    + rewrite Hframe1; [done|by apply Hrest..].
    + rewrite Hframe1; [done|by apply Hrest..].
Qed.

End PassMore.

(** ** The audit of a branch (lines 34 to 55) *)

(** With auto-fix off and any manifest, the audit returns the list read off
    the tree the checkout left: manifest order, one [Missing folder] entry
    for a folder that is not there, and for a folder that is there one
    [Missing file] entry for each of its files that is not, in the order of
    the file list; the world is left as the checkout left it. *)
Theorem report_only_list {repo}
    (sh : string → repo → fs → answer * repo * fs)
    branch (w c : world repo) out :
  AUTO_FIX w = false →
  checked_out sh branch w = (Output out, c) →
  check_branch sh branch w
  = (c, inr (REQUIRED_STRUCTURE w ≫= λ item,
               if path_exists (tree c) item.1
               then (λ f, missing_file (os_path_join item.1 f))
                      <$> filter (λ f, path_exists (tree c)
                                         (os_path_join item.1 f) = false)
                                 item.2
               else [missing_folder item.1])).
Proof. apply audit_report_only. Qed.

Lemma report_only_list_witness :
  (check_branch ToyGit.sh "main" (Cases.nested_world false)).2
  = inr ["Missing folder: a/b"; "Missing folder: a"].
Proof.
  rewrite (report_only_list ToyGit.sh "main" (Cases.nested_world false)
             (checked_out ToyGit.sh "main" (Cases.nested_world false)).2
             EmptyString); [|reflexivity|compute_done].
  vm_compute. reflexivity.
Defined.





(** The independence of the manifest is needed there: when a folder is
    listed after a folder below it, the creation of the lower one creates
    the upper one, which the pass then finds and whose files it checks. *)
Example nested_folders_change_the_list :
  (check_branch ToyGit.sh "main" (Cases.nested_world false)).2
  = inr ["Missing folder: a/b"; "Missing folder: a"] ∧
  (check_branch ToyGit.sh "main" (Cases.nested_world true)).2
  = inr ["Missing folder: a/b"; "Missing file: a/x"].
Proof. split; compute_done. Qed.

(** A regular file at the path of a folder counts as the folder, since
    line 41 asks for existence only.  With auto-fix off the folder is never
    reported missing, and each of its files that is not there is. *)
Theorem file_at_folder_path_is_not_reported {repo}
    (sh : string → repo → fs → answer * repo * fs)
    branch (w c : world repo) out folder files content :
  AUTO_FIX w = false →
  checked_out sh branch w = (Output out, c) →
  (folder, files) ∈ REQUIRED_STRUCTURE w →
  tree c !! folder = Some (File content) →
  ∃ missing,
    check_branch sh branch w = (c, inr missing) ∧
    (missing_folder folder ∉ missing) ∧
    ∀ f, f ∈ files → tree c !! os_path_join folder f = None →
         missing_file (os_path_join folder f) ∈ missing.
Proof.
  intros Hfix Hco Hin Hfile. eexists.
  split; [by apply (audit_report_only sh branch w out)|].
  assert (path_exists (tree c) folder = true) as Hthere
    by (apply path_exists_true; by rewrite Hfile).
  split.
  - intros (G & gs & _ & [[Habsent Heq]|[_ He]])%elem_of_all_missing.
    + apply missing_folder_inj in Heq as ->. congruence.
    + apply elem_of_files_missing in He as (g & _ & _ & Heq).
      by apply missing_folder_not_file in Heq.
  - intros f Hf Habsent. apply elem_of_all_missing.
    exists folder, files. split; [done|]. right. split; [done|].
    apply elem_of_files_missing. exists f. split; [done|]. split; [|done].
    by apply path_exists_false.
Qed.

Lemma file_at_folder_path_is_not_reported_witness :
  ∃ missing,
    (check_branch ToyGit.sh "main"
       (ToyGit.start false Cases.flat Cases.config_file)).2 = inr missing ∧
    (missing_folder "config" ∉ missing) ∧
    missing_file "config/settings.py" ∈ missing.
Proof.
  destruct (file_at_folder_path_is_not_reported ToyGit.sh "main"
              (ToyGit.start false Cases.flat Cases.config_file)
              (checked_out ToyGit.sh "main"
                 (ToyGit.start false Cases.flat Cases.config_file)).2
              EmptyString "config" ["settings.py"] "DEBUG = True")
    as (missing & Hrun & Hfolder & Hfiles);
    [reflexivity|compute_done|compute_done|compute_done|].
  exists missing. split; [by rewrite Hrun|]. split; [exact Hfolder|].
  apply (Hfiles "settings.py"); compute_done.
Defined.

(** With auto-fix on and an independent manifest, a regular file at the path
    of a folder that lacks one of its files makes the audit raise an
    [OSError] (the placeholder cannot be opened below a regular file): no
    list is returned. *)
Theorem file_at_folder_path_stops_autofix {repo}
    (sh : string → repo → fs → answer * repo * fs)
    branch (w c : world repo) out folder files f content :
  AUTO_FIX w = true →
  independent (REQUIRED_STRUCTURE w) = true →
  checked_out sh branch w = (Output out, c) →
  (folder, files) ∈ REQUIRED_STRUCTURE w →
  f ∈ files →
  tree c !! folder = Some (File content) →
  tree c !! os_path_join folder f = None →
  ∃ w' p, check_branch sh branch w = (w', inl (OSError p)).
Proof.
  intros Hfix Hind Hco Hin Hf Hfile Habsent.
  rewrite check_branch_eq, Hco.
  destruct (independent_spec _ Hind) as [Hnd Habove].
  apply checked_out_globals in Hco as (_ & Hfix1 & _).
  apply (check_folders_fix_blocked _ _ _ folder files f content); try done.
  - congruence.
  - intros F fs g. by apply independent_parent.
Qed.

Lemma file_at_folder_path_stops_autofix_witness :
  ∃ p, (check_branch ToyGit.sh "main"
          (ToyGit.start true Cases.flat Cases.config_file)).2
       = inl (OSError p).
Proof.
  destruct (file_at_folder_path_stops_autofix ToyGit.sh "main"
              (ToyGit.start true Cases.flat Cases.config_file)
              (checked_out ToyGit.sh "main"
                 (ToyGit.start true Cases.flat Cases.config_file)).2
              EmptyString "config" ["settings.py"] "settings.py"
              "DEBUG = True")
    as (w' & p & Hrun);
    [reflexivity|compute_done|compute_done|compute_done|compute_done
    |compute_done|compute_done|].
  exists p. by rewrite Hrun.
Defined.

(** ** The branch enumerator (lines 58, 59 and 64) *)

Lemma lstrip_head s c r : Str.lstrip s = String c r → Str.is_space c = false.
Proof.
  induction s as [|d s IH]; simpl; [done|].
  destruct (Str.is_space d) eqn:Hd; [done|]. by intros [= <- _].
Qed.

Lemma lstrip_fixed c r : Str.is_space c = false → Str.lstrip (String c r) = String c r.
Proof. simpl. by intros ->. Qed.

Lemma rstrip_head s c r : Str.rstrip s = String c r → ∃ r', s = String c r'.
Proof.
  destruct s as [|d s]; simpl; [done|].
  destruct (Str.rstrip s); [destruct (Str.is_space d)|];
    intros [= <- _]; by eexists.
Qed.

Lemma rstrip_idemp s : Str.rstrip (Str.rstrip s) = Str.rstrip s.
Proof.
  induction s as [|d s IH]; [done|].
  cbn [Str.rstrip]. destruct (Str.rstrip s) as [|e r] eqn:Hr.
  - destruct (Str.is_space d) eqn:Hd; [done|]. simpl. by rewrite Hd.
  - cbn [Str.rstrip]. cbn [Str.rstrip] in IH. by rewrite IH.
Qed.

Lemma strip_idemp s : Str.strip (Str.strip s) = Str.strip s.
Proof.
  unfold Str.strip.
  destruct (Str.rstrip (Str.lstrip s)) as [|c r] eqn:Hs; [done|].
  destruct (rstrip_head _ _ _ Hs) as [r' Hl].
  rewrite lstrip_fixed by (by eapply lstrip_head).
  by rewrite <- Hs, rstrip_idemp.
Qed.

Lemma prefix_app_l p s : String.prefix p (p +:+ s) = true.
Proof.
  induction p as [|c p IH]; [by destruct s|].
  change (String c p +:+ s) with (String c (p +:+ s)). simpl.
  by destruct (ascii_dec c c).
Qed.

Lemma contains_unfold needle s :
  Str.contains needle s =
  String.prefix needle s ||
  match s with
  | String _ s' => Str.contains needle s'
  | EmptyString => false
  end.
Proof. by destruct s. Qed.

Lemma contains_app needle pre post :
  Str.contains needle (pre +:+ needle +:+ post) = true.
Proof.
  induction pre as [|c pre IH].
  - change (EmptyString +:+ needle +:+ post) with (needle +:+ post).
    by rewrite contains_unfold, prefix_app_l.
  - change (String c pre +:+ needle +:+ post)
      with (String c (pre +:+ needle +:+ post)).
    rewrite contains_unfold, IH. apply orb_true_r.
Qed.

(** Every name the enumerator hands to the auditor is a stripped, non-empty
    string: it is not empty and [name.strip()] is [name]. *)
Theorem enumerated_names_are_stripped raw name :
  name ∈ enumerate_branches raw →
  name ≠ EmptyString ∧ Str.strip name = name.
Proof.
  unfold enumerate_branches, branch_names.
  intros [Htruthy Hin]%list_elem_of_filter. split.
  - by destruct name.
  - apply list_elem_of_fmap in Hin as (line & -> & _). apply strip_idemp.
Qed.

Lemma enumerated_names_are_stripped_witness :
  "feature-x" ≠ EmptyString ∧ Str.strip "feature-x" = "feature-x".
Proof.
  apply (enumerated_names_are_stripped
           (ToyGit.listing ToyGit.two_branches) "feature-x").
  compute_done.
Defined.

(** The test of line 59 is a substring test: a line that holds the word
    [remotes] anywhere gives no name, also when it is the line of a local
    branch whose name holds the word, as in the listing of a repository with
    the local branches [main] and [fix-remotes-url]. *)
Theorem lines_with_remotes_are_dropped :
  (∀ before after pre post,
     branch_names (before ++ (pre +:+ "remotes" +:+ post) :: after)
     = branch_names (before ++ after)) ∧
  enumerate_branches (ToyGit.listing Cases.with_remotes_word) = ["main"].
Proof.
  split; [|reflexivity].
  intros before after pre post. unfold branch_names.
  rewrite !filter_app, filter_cons, decide_False; [done|].
  by rewrite contains_app.
Qed.

(** ** The loop over the branches and the report (lines 57 to 69) *)

Lemma dict_set_keys_in key v (rep : report) :
  key ∈ rep.*1 → (dict_set key v rep).*1 = rep.*1.
Proof.
  induction rep as [|[k v'] rep IH]; intros Hin.
  - by apply elem_of_nil in Hin.
  - cbn [dict_set]. case_decide as Hk; [done|].
    rewrite !fmap_cons in Hin |- *. cbn [fst] in Hin |- *.
    apply elem_of_cons in Hin as [->|Hin]; [done|]. by rewrite IH.
Qed.

Lemma dict_set_keys_fresh key v (rep : report) :
  key ∉ rep.*1 → (dict_set key v rep).*1 = rep.*1 ++ [key].
Proof.
  induction rep as [|[k v'] rep IH]; intros Hout; [done|].
  rewrite fmap_cons in Hout. cbn [fst] in Hout.
  apply not_elem_of_cons in Hout as [Hne Hout].
  cbn [dict_set]. rewrite decide_False by done.
  rewrite !fmap_cons. cbn [fst]. by rewrite IH.
Qed.

Lemma dict_set_get key v (rep : report) k :
  dict_get k (dict_set key v rep)
  = if decide (k = key) then Some v else dict_get k rep.
Proof.
  induction rep as [|[k' v'] rep IH]; simpl.
  - destruct (decide (key = k)) as [->|Hne].
    + by rewrite decide_True.
    + by rewrite decide_False by done.
  - destruct (decide (k' = key)) as [->|Hne]; simpl.
    + destruct (decide (key = k)) as [->|Hne'].
      * by rewrite decide_True.
      * by rewrite decide_False by done.
    + destruct (decide (k' = k)) as [->|Hne'].
      * by rewrite decide_False by done.
      * apply IH.
Qed.

Section Loop.

Context {repo : Type}.
Variable sh : string → repo → fs → answer * repo * fs.
Implicit Types (w : world repo) (rep : report).

Lemma audit_branches_report branches rep w w' rep' :
  audit_branches sh branches rep w = (w', inr rep') →
  NoDup rep.*1 →
  NoDup rep'.*1 ∧
  (∀ k, k ∈ rep'.*1 ↔ k ∈ rep.*1 ∨ (k ∈ branches ∧ Str.truthy k = true)) ∧
  (NoDup (rep.*1 ++ filter (λ b, Str.truthy b = true) branches) →
   rep'.*1 = rep.*1 ++ filter (λ b, Str.truthy b = true) branches).
Proof.
  revert rep w. induction branches as [|b bs IH]; intros rep w.
  { simpl. unfold ret. intros [= <- <-] Hnd. split; [done|]. split.
    - intros k. split; [by left|]. intros [?|[?%elem_of_nil _]]; done.
    - by rewrite app_nil_r. }
  cbn [audit_branches]. rewrite filter_cons.
  destruct (Str.truthy b) eqn:Hb.
  - rewrite decide_True by done. unfold bind.
    destruct (check_branch sh b w) as [w1 [e|missing]]; [done|].
    intros Hrun Hnd.
    assert (NoDup (dict_set b missing rep).*1 ∧
            (∀ k, k ∈ (dict_set b missing rep).*1 ↔ k ∈ rep.*1 ∨ k = b))
      as [Hnd1 Hkeys1].
    { destruct (decide (b ∈ rep.*1)) as [Hin|Hout].
      - rewrite dict_set_keys_in by done. split; [done|].
        intros k. split; [by left|]. by intros [?| ->].
      - rewrite dict_set_keys_fresh by done. split.
        + apply NoDup_app. split; [done|]. split; [|apply NoDup_singleton].
          intros k Hk ->%list_elem_of_singleton. done.
        + intros k. rewrite elem_of_app, list_elem_of_singleton. done. }
    destruct (IH _ _ Hrun Hnd1) as (Hnd' & Hkeys' & Horder').
    split; [done|]. split.
    + intros k. rewrite Hkeys', Hkeys1, elem_of_cons. split.
      * intros [[?| ->]|[? ?]]; [by left|right|right]; split; auto.
      * intros [?|[[->|?] ?]]; [left; by left|left; by right|right; done].
    + intros Hall. apply NoDup_app in Hall as (_ & Hdisj & Hbs).
      apply NoDup_cons in Hbs as [Hb' Hbs].
      assert (b ∉ rep.*1) as Hout.
      { intros Hin. apply (Hdisj b Hin), elem_of_cons. by left. }
      rewrite Horder'; rewrite dict_set_keys_fresh by done.
      * by rewrite <- app_assoc.
      * rewrite <- app_assoc. simpl. apply NoDup_app. split; [done|].
        split; [done|]. by apply NoDup_cons.
  - rewrite decide_False by done. intros Hrun Hnd.
    destruct (IH _ _ Hrun Hnd) as (Hnd' & Hkeys' & Horder').
    split; [done|]. split; [|done].
    intros k. rewrite Hkeys', elem_of_cons. split.
    + intros [?|[? ?]]; [by left|right]. split; auto.
    + intros [?|[[->|?] ?]]; [by left|congruence|right; done].
Qed.

End Loop.

(** When the loop over the branches returns, the report has one entry for
    each name that was audited and no other: its keys are pairwise different
    and are the non-empty names of the list, in the order of the list when
    those are pairwise different. *)
Theorem report_has_one_entry_per_branch {repo}
    (sh : string → repo → fs → answer * repo * fs)
    branches (w w' : world repo) rep :
  audit_branches sh branches [] w = (w', inr rep) →
  NoDup rep.*1 ∧
  (∀ k, k ∈ rep.*1 ↔ k ∈ branches ∧ k ≠ EmptyString) ∧
  (NoDup (filter (λ b, Str.truthy b = true) branches) →
   rep.*1 = filter (λ b, Str.truthy b = true) branches).
Proof.
  intros Hrun.
  destruct (audit_branches_report sh _ _ _ _ _ Hrun (NoDup_nil_2))
    as (Hnd & Hkeys & Horder).
  split; [done|]. split; [|done].
  intros k. rewrite Hkeys. split.
  - intros [?%elem_of_nil|[Hin Hk]]; [done|]. split; [done|]. by destruct k.
  - intros [Hin Hk]. right. split; [done|]. by destruct k.
Qed.

Lemma report_has_one_entry_per_branch_witness :
  let run := audit_branches ToyGit.sh ["main"; ""; "zeta"; "main"] []
               (ToyGit.start false ToyGit.clash ToyGit.main_tree) in
  ∃ rep, run.2 = inr rep ∧ NoDup rep.*1 ∧ "zeta" ∈ rep.*1.
Proof.
  intros run.
  assert (∃ rep, run = (run.1, inr rep)) as [rep Hrun].
  { eexists. vm_compute. reflexivity. }
  destruct (report_has_one_entry_per_branch ToyGit.sh _ _ _ _ Hrun)
    as (Hnd & Hkeys & _).
  exists rep. split; [by rewrite Hrun|]. split; [exact Hnd|].
  apply Hkeys. split; [compute_done|done].
Defined.

(** The audit of one more branch sets the entry of its name to the list it
    returns, replacing an entry an earlier audit of that name left, and
    keeps every other entry. *)
Theorem later_audit_overwrites_entry {repo}
    (sh : string → repo → fs → answer * repo * fs)
    branches branch (w w' : world repo) rep :
  branch ≠ EmptyString →
  audit_branches sh (branches ++ [branch]) [] w = (w', inr rep) →
  ∃ w1 rep1 missing,
    audit_branches sh branches [] w = (w1, inr rep1) ∧
    check_branch sh branch w1 = (w', inr missing) ∧
    dict_get branch rep = Some missing ∧
    ∀ k, k ≠ branch → dict_get k rep = dict_get k rep1.
Proof.
  intros Hb. rewrite audit_branches_app.
  destruct (audit_branches sh branches [] w) as [w1 [e|rep1]]; [done|].
  cbn [audit_branches]. destruct branch as [|c branch]; [done|].
  cbn [Str.truthy]. unfold bind.
  destruct (check_branch sh (String c branch) w1) as [w2 [e|missing]] eqn:Hcb.
  { intros ?. simplify_eq. }
  simpl. unfold ret. intros [= <- <-].
  exists w1, rep1, missing. split; [done|]. split; [done|]. split.
  - by rewrite dict_set_get, decide_True.
  - intros k Hk. by rewrite dict_set_get, decide_False.
Qed.

Lemma later_audit_overwrites_entry_witness :
  let run := audit_branches ToyGit.sh (["main"; "zeta"] ++ ["main"]) []
               (ToyGit.start false ToyGit.clash ToyGit.main_tree) in
  ∃ rep missing, run.2 = inr rep ∧ dict_get "main" rep = Some missing.
Proof.
  intros run.
  assert (∃ rep, run = (run.1, inr rep)) as [rep Hrun].
  { eexists. vm_compute. reflexivity. }
  destruct (later_audit_overwrites_entry ToyGit.sh _ "main" _ _ _
              ltac:(done) Hrun)
    as (w1 & rep1 & missing & _ & _ & Hget & _).
  exists rep, missing. split; [by rewrite Hrun|exact Hget].
Defined.

(** When the listing succeeds and [main] returns, what it has printed is
    the banner of each enumerated branch in order, then the banner of the
    final report, then the report of the loop as JSON; and the state outside
    is the one the last audit left. *)
Theorem main_prints_banners_then_report {repo}
    (sh : string → repo → fs → answer * repo * fs)
    (w w' : world repo) raw r t :
  sh "git branch -a" (vcs w) (tree w) = (Output raw, r, t) →
  main sh w = (w', inr tt) →
  ∃ wl rep,
    audit_branches sh (enumerate_branches raw) [] (set_outside r t w)
    = (wl, inr rep) ∧
    stdout w' = stdout w ++ (banner <$> enumerate_branches raw)
                         ++ [final_banner; Json.dumps rep] ∧
    vcs w' = vcs wl ∧ tree w' = tree wl.
Proof.
  intros Hls. rewrite (main_enumerates sh _ _ _ _ Hls). unfold bind at 1.
  destruct (audit_branches_fields sh (enumerate_branches raw) []
              (set_outside r t w)) as (r' & t' & seen & Hw & _ & Hseen).
  destruct (audit_branches sh (enumerate_branches raw) [] (set_outside r t w))
    as [wl [e|rep]]; [done|].
  simpl in Hw. subst wl. rewrite (Hseen rep eq_refl).
  unfold bind, print. simpl. intros [= <-].
  eexists _, rep. split; [done|]. simpl. split; [|done].
  rewrite <- !app_assoc. simpl. do 2 f_equal.
  unfold enumerate_branches.
  by rewrite list_filter_filter_l by done.
Qed.

Lemma main_prints_banners_then_report_witness :
  let w := ToyGit.start false ToyGit.two_branches ToyGit.readme in
  ∃ rep, stdout (main ToyGit.sh w).1
         = [banner "feature-x"; banner "main"; final_banner; Json.dumps rep].
Proof.
  intros w.
  destruct (main_prints_banners_then_report ToyGit.sh w (main ToyGit.sh w).1
              (ToyGit.listing ToyGit.two_branches)
              ToyGit.two_branches ToyGit.readme)
    as (wl & rep & _ & Hout & _); [compute_done|compute_done|].
  exists rep. rewrite Hout. reflexivity.
Defined.

(** When the listing succeeds and holds no name to audit (no line, or lines
    of remote-tracking branches only), [main] runs no other command, leaves
    the state the listing left, and prints the banner of the final report
    and the empty report. *)
Theorem main_with_nothing_to_audit {repo}
    (sh : string → repo → fs → answer * repo * fs)
    (w : world repo) raw r t :
  sh "git branch -a" (vcs w) (tree w) = (Output raw, r, t) →
  enumerate_branches raw = [] →
  main sh w
  = (World (REQUIRED_STRUCTURE w) (AUTO_FIX w) r t
           (stdout w ++ [final_banner; "{}"]), inr tt).
Proof.
  intros Hls Hnone. rewrite (main_enumerates sh _ _ _ _ Hls), Hnone.
  unfold bind, print, ret. simpl. by rewrite <- app_assoc.
Qed.

Lemma main_with_nothing_to_audit_witness :
  main ToyGit.sh (ToyGit.start true Cases.fresh ∅)
  = (World required_structure true Cases.fresh ∅ [final_banner; "{}"], inr tt).
Proof.
  apply (main_with_nothing_to_audit ToyGit.sh
           (ToyGit.start true Cases.fresh ∅)
           (ToyGit.listing Cases.fresh)); compute_done.
Defined.

(** ** The export script ([lifecycle/vacuum_data.py]) *)


(** [fetch_data] touches neither the working directory nor the output, and
    it closes the connection it opened only when the query returned: when
    [pd.read_sql] raises, line 16 is not reached and one more connection is
    left open; when [connect] raises, no query is made. *)
Theorem fetch_data_closes_only_on_success {frame}
    (accepts : bool) (read_sql : string → option frame) (w : Vacuum.world) :
  let (w', res) := Vacuum.fetch_data accepts read_sql w in
  Vacuum.tree w' = Vacuum.tree w ∧
  Vacuum.stdout w' = Vacuum.stdout w ∧
  match res with
  | inr df =>
      accepts = true ∧ read_sql Vacuum.QUERY = Some df ∧
      Vacuum.connections w' = Vacuum.connections w
  | inl e =>
      if accepts
      then read_sql Vacuum.QUERY = None ∧ e = Vacuum.DatabaseError Vacuum.QUERY ∧
           Vacuum.connections w' = S (Vacuum.connections w)
      else e = Vacuum.OperationalError ∧
           Vacuum.connections w' = Vacuum.connections w
  end.
Proof.
  unfold Vacuum.fetch_data. destruct accepts; [|done].
  destruct (read_sql Vacuum.QUERY) as [df|]; done.
Qed.


(** On a working directory that has [resources/data/raw] the export writes
    the frame and reports; with a server that answers no query it raises
    and leaves a connection open. *)
Example export_on_ready_tree :
  Vacuum.export true Cases.answers Cases.csv
    (Vacuum.World 0 Cases.export_ready [])
  = (Vacuum.World 0
       (<[Vacuum.PATH := File (Cases.csv Cases.users)]> Cases.export_ready)
       [Vacuum.DONE], inr tt) ∧
  Vacuum.export true Cases.refuses Cases.csv
    (Vacuum.World 0 Cases.export_ready [])
  = (Vacuum.World 1 Cases.export_ready [],
     inl (Vacuum.DatabaseError Vacuum.QUERY)).
Proof. split; compute_done. Qed.



(** ** What can go wrong (lines 31 to 69) *)

Section Errors.

Context {repo : Type}.
Variable sh : string → repo → fs → answer * repo * fs.
Implicit Types (w : world repo) (m : manifest) (missing : list string).





End Errors.





(** With every command exiting with status zero and auto-fix off, a run
    still raises when the listing does not decode; nothing is printed. *)
Example run_on_listing_that_is_not_text :
  main Cases.garbled (ToyGit.start false ToyGit.two_branches ToyGit.readme)
  = (ToyGit.start false ToyGit.two_branches ToyGit.readme,
     inl UnicodeDecodeError).
Proof. compute_done. Qed.
